(** * secureenv: read an environment variable once, then unset it

    A shallow embedding of the three revisions of package [secureenv]
    (github.com/payfazz/secureenv):

    - [rev1]      : [Get(key, def)]                      (src/unnamed/part_000)
    - [rev2]      : the [Get*] fetchers and the assigners built on them
                                                         (src/unnamed/part_001)
    - [secureenv] : the final revision, assigners only   (src/secureenv.go)

    The process environment is a finite map from names to values;
    [os.LookupEnv] and [os.Unsetenv] are lookup and deletion on it.  The
    functions of the package run in a small state monad over the
    environment, the log of [os.Unsetenv] calls and the memory cell an
    output pointer may refer to; a nil pointer dereference panics, and
    deferred calls run on every exit path.

    The parsers of Go's [strconv] that the package calls ([ParseBool],
    [ParseInt], [ParseUint]) are transcribed from the Go standard library
    (Go 1.13 and later: base prefixes 0b/0o/0x and underscores with base 0).
    [ParseFloat] and the floating-point types are parameters of the
    development. *)

From Stdlib Require Import ZArith String Ascii List Lia Bool.
From stdpp Require Import gmap strings.

Local Open Scope string_scope.
Local Open Scope Z_scope.

(** ** Machine integers and bytes *)

(** The value of a byte of a Go string. *)
Definition code (c : ascii) : Z := Z.of_N (N_of_ascii c).

(** [uintN(z)]: conversion to an unsigned integer of [w] bits. *)
Definition wrap_unsigned (w : Z) (z : Z) : Z := z mod 2 ^ w.

(** [intN(z)]: conversion to a signed (two's complement) integer of [w] bits. *)
Definition wrap_signed (w : Z) (z : Z) : Z :=
  let u := z mod 2 ^ w in
  if u <? 2 ^ (w - 1) then u else u - 2 ^ w.

Definition uint64 : Z -> Z := wrap_unsigned 64.
Definition int64 : Z -> Z := wrap_signed 64.
Definition uint32 : Z -> Z := wrap_unsigned 32.
Definition int32 : Z -> Z := wrap_signed 32.
Definition byte : Z -> Z := wrap_unsigned 8.

Definition maxUint64 : Z := 2 ^ 64 - 1.

(** [len(s)], [s[i]] and [s[i:]] on Go strings (sequences of bytes).  The
    source guards every index by a length test; out of range [index] is 0
    and [slice_from] is empty. *)
Definition len (s : string) : Z := Z.of_nat (String.length s).

Fixpoint index (s : string) (i : nat) : Z :=
  match s, i with
  | EmptyString, _ => 0
  | String c _, O => code c
  | String _ s', S i' => index s' i'
  end.

Fixpoint slice_from (s : string) (i : nat) {struct i} : string :=
  match i, s with
  | O, _ => s
  | S i', String _ s' => slice_from s' i'
  | S _, EmptyString => EmptyString
  end.

(** ** The platform *)

(** Size of Go's [int] and [uint]: 4 or 8 bytes. *)
Inductive arch := Arch32 | Arch64.

Definition sizeof_int (a : arch) : Z :=
  match a with Arch32 => 4 | Arch64 => 8 end.

(** ** Errors *)

(** [strconv.NumError.Err]: the sentinel [ErrSyntax] or [ErrRange], or the
    error of an invalid base or bit size. *)
Inductive numErr :=
| ErrSyntax
| ErrRange
| ErrBase (base : Z)
| ErrBitSize (bitSize : Z).

(** [*strconv.NumError] *)
Record NumError := mkNumError { Func : string; Num : string; Err : numErr }.

(** Go's [error] as returned by this package: [nil] or a [*NumError]. *)
Definition error := option NumError.
Definition nil : error := None.

Definition is_nil (e : error) : bool :=
  match e with None => true | Some _ => false end.

(** The platform: the width of [int], and the floating-point types with
    [strconv.ParseFloat] and the conversion [float32(x)]. *)
Class Platform := {
  host : arch;
  float64 : Type;
  float32 : Type;
  float64_zero : float64;
  float32_zero : float32;
  to_float32 : float64 -> float32;
  ParseFloat : string -> Z -> float64 * error
}.

Definition is_ErrRange (k : numErr) : bool :=
  match k with ErrRange => true | _ => false end.

(** [err != nil && p(e)], where [e] is the [NumError] that [err] holds. *)
Definition not_nil_and (err : error) (p : NumError -> bool) : bool :=
  match err with Some e => p e | None => false end.

(** The assignments to the fields [Func] and [Num] of the [NumError] that
    [err] holds. *)
Definition with_func_num (err : error) (fn num : string) : error :=
  match err with Some e => Some (mkNumError fn num (Err e)) | None => None end.

(** ** strconv *)

Module strconv.

Definition syntaxError (fn str : string) : NumError := mkNumError fn str ErrSyntax.
Definition rangeError (fn str : string) : NumError := mkNumError fn str ErrRange.
Definition baseError (fn str : string) (base : Z) : NumError :=
  mkNumError fn str (ErrBase base).
Definition bitSizeError (fn str : string) (bitSize : Z) : NumError :=
  mkNumError fn str (ErrBitSize bitSize).

(** [func ParseBool(str string) (bool, error)] *)
Definition ParseBool (str : string) : bool * error :=
  if existsb (String.eqb str) ["1"; "t"; "T"; "true"; "TRUE"; "True"] then
    (true, nil)
  else if existsb (String.eqb str) ["0"; "f"; "F"; "false"; "FALSE"; "False"] then
    (false, nil)
  else (false, Some (syntaxError "ParseBool" str)).

(** [lower(c)]: [c | ('x' - 'X')] *)
Definition lower (c : Z) : Z := Z.lor c (code "x" - code "X").

(** [underscoreOK]: the scan of the number proper.  [saw] is the last
    character class seen: ["^"], ["0"], ["_"] or ["!"]. *)
Fixpoint underscoreOK_scan (hex : bool) (saw : ascii) (s : string) : bool :=
  match s with
  | EmptyString => negb (Ascii.eqb saw "_")
  | String ch s' =>
    let c := code ch in
    if ((code "0" <=? c) && (c <=? code "9"))
       || (hex && (code "a" <=? lower c) && (lower c <=? code "f")) then
      underscoreOK_scan hex "0" s'
    else if c =? code "_" then
      if negb (Ascii.eqb saw "0") then false
      else underscoreOK_scan hex "_" s'
    else if Ascii.eqb saw "_" then false
    else underscoreOK_scan hex "!" s'
  end.

(** [func underscoreOK(s string) bool] *)
Definition underscoreOK (s : string) : bool :=
  let s :=
    if (1 <=? len s) && ((index s 0 =? code "-") || (index s 0 =? code "+"))
    then slice_from s 1 else s in
  if (2 <=? len s) && (index s 0 =? code "0")
     && ((lower (index s 1) =? code "b") || (lower (index s 1) =? code "o")
         || (lower (index s 1) =? code "x"))
  then underscoreOK_scan (lower (index s 1) =? code "x") "0" (slice_from s 2)
  else underscoreOK_scan false "^" s.

(** The cases of the [switch] in the digit loop of [ParseUint] that compute
    the digit [d] of a byte [c]; [None] is its [default] case. *)
Definition digit (c : Z) : option Z :=
  if (code "0" <=? c) && (c <=? code "9") then Some (byte (c - code "0"))
  else if (code "a" <=? lower c) && (lower c <=? code "z")
  then Some (byte (lower c - code "a" + 10))
  else None.

(** The digit loop of [ParseUint]: [inl] is an early [return] from inside
    the loop, [inr (n, underscores)] the state when the loop runs to the
    end of the string. *)
Fixpoint digits_loop (fn s0 : string) (base : Z) (base0 : bool)
    (cutoff maxVal : Z) (s : string) (underscores : bool) (n : Z)
    : (Z * error) + (Z * bool) :=
  match s with
  | EmptyString => inr (n, underscores)
  | String ch s' =>
    let c := code ch in
    if (c =? code "_") && base0 then
      digits_loop fn s0 base base0 cutoff maxVal s' true n
    else
      match digit c with
      | None => inl (0, Some (syntaxError fn s0))
      | Some d =>
        if byte base <=? d then inl (0, Some (syntaxError fn s0))
        else if cutoff <=? n then inl (maxVal, Some (rangeError fn s0))
        else
          let n := uint64 (n * uint64 base) in
          let n1 := uint64 (n + d) in
          if (n1 <? n) || (maxVal <? n1) then inl (maxVal, Some (rangeError fn s0))
          else digits_loop fn s0 base base0 cutoff maxVal s' underscores n1
      end
  end.

Section WithPlatform.
Context `{Platform}.

(** [const IntSize] *)
Definition IntSize : Z := sizeof_int host * 8.

(** [func ParseUint(s string, base int, bitSize int) (uint64, error)] *)
Definition ParseUint (s : string) (base : Z) (bitSize : Z) : Z * error :=
  let fnParseUint := "ParseUint" in
  if String.eqb s EmptyString then (0, Some (syntaxError fnParseUint s)) else
  let base0 := base =? 0 in
  let s0 := s in
  let radix : option (Z * string) :=
    if (2 <=? base) && (base <=? 36) then Some (base, s)
    else if base =? 0 then
      if index s 0 =? code "0" then
        if (3 <=? len s) && (lower (index s 1) =? code "b") then Some (2, slice_from s 2)
        else if (3 <=? len s) && (lower (index s 1) =? code "o") then Some (8, slice_from s 2)
        else if (3 <=? len s) && (lower (index s 1) =? code "x") then Some (16, slice_from s 2)
        else Some (8, slice_from s 1)
      else Some (10, s)
    else None in
  match radix with
  | None => (0, Some (baseError fnParseUint s0 base))
  | Some (base, s) =>
    let width : option Z :=
      if bitSize =? 0 then Some IntSize
      else if (bitSize <? 0) || (64 <? bitSize) then None
      else Some bitSize in
    match width with
    | None => (0, Some (bitSizeError fnParseUint s0 bitSize))
    | Some bitSize =>
      let cutoff := maxUint64 / uint64 base + 1 in
      let maxVal := uint64 (uint64 (Z.shiftl 1 bitSize) - 1) in
      match digits_loop fnParseUint s0 base base0 cutoff maxVal s false 0 with
      | inl early => early
      | inr (n, underscores) =>
        if underscores && negb (underscoreOK s0)
        then (0, Some (syntaxError fnParseUint s0))
        else (n, nil)
      end
    end
  end.

(** [func ParseInt(s string, base int, bitSize int) (i int64, err error)] *)
Definition ParseInt (s : string) (base : Z) (bitSize : Z) : Z * error :=
  let fnParseInt := "ParseInt" in
  if String.eqb s EmptyString then (0, Some (syntaxError fnParseInt s)) else
  let s0 := s in
  let '(neg, s) :=
    if index s 0 =? code "+" then (false, slice_from s 1)
    else if index s 0 =? code "-" then (true, slice_from s 1)
    else (false, s) in
  let '(un, err) := ParseUint s base 64 in
  if not_nil_and err (fun e => negb (is_ErrRange (Err e))) then
    (0, with_func_num err fnParseInt s0)
  else
    let bitSize := if bitSize =? 0 then IntSize else bitSize in
    let cutoff := uint64 (Z.shiftl 1 (bitSize - 1)) in
    if negb neg && (cutoff <=? un) then
      (int64 (cutoff - 1), Some (rangeError fnParseInt s0))
    else if neg && (cutoff <? un) then
      (int64 (- int64 cutoff), Some (rangeError fnParseInt s0))
    else
      let n := int64 un in
      let n := if neg then int64 (- n) else n in
      (n, nil).

End WithPlatform.

End strconv.

(** ** The state of a call: environment and output cell *)

(** The state a call of the package can observe or change: the process
    environment, the calls of [os.Unsetenv] made so far (the names they
    were given, oldest first), and the content of the memory cell of type
    [T] that the caller's output pointer may refer to. *)
Record world (T : Type) := World {
  environ : gmap string string;
  unsets : list string;
  cell : T
}.
Arguments World {T} _ _ _.
Arguments environ {T} _.
Arguments unsets {T} _.
Arguments cell {T} _.

(** An output pointer [*T]: [null], or the address of the cell. *)
Inductive pointer := null | addr.

(** How a call ends: it returns a value, or it panics. *)
Inductive outcome (A : Type) :=
| Returned (a : A)
| Panicked.
Arguments Returned {A} _.
Arguments Panicked {A}.

(** Computations over a [world T]. *)
Definition M (T A : Type) : Type := world T -> outcome A * world T.

Definition ret {T A} (a : A) : M T A := fun w => (Returned a, w).

Definition bind {T A B} (m : M T A) (f : A -> M T B) : M T B :=
  fun w =>
    match m w with
    | (Returned a, w') => f a w'
    | (Panicked, w') => (Panicked, w')
    end.

Declare Scope go_scope.
Delimit Scope go_scope with go.
Notation "x ← y ; z" := (bind y (fun x => z))
  (at level 20, y at level 100, z at level 200, only parsing) : go_scope.
Notation "' x ← y ; z" := (bind y (fun x => z))
  (at level 20, x pattern, y at level 100, z at level 200, only parsing) : go_scope.
Notation "x ;; z" := (bind x (fun _ => z))
  (at level 100, z at level 200, only parsing, right associativity) : go_scope.
Local Open Scope go_scope.

(** [defer d; body]: [body] runs, then the deferred call [d] runs whether
    [body] returned or panicked, and its result is dropped; the call ends
    the way [body] ended (unless [d] itself panics). *)
Definition defer {T A B} (d : M T B) (body : M T A) : M T A :=
  fun w =>
    match body w with
    | (r, w') =>
      match d w' with
      | (Returned _, w'') => (r, w'')
      | (Panicked, w'') => (Panicked, w'')
      end
    end.

(** [*output = v]: a nil pointer dereference panics. *)
Definition store {T} (output : pointer) (v : T) : M T unit :=
  fun w =>
    match output with
    | addr => (Returned tt, World (environ w) (unsets w) v)
    | null => (Panicked, w)
    end.

(** ** os *)

Module os.

(** [func LookupEnv(key string) (string, bool)] *)
Definition LookupEnv {T} (key : string) : M T (string * bool) :=
  fun w =>
    match environ w !! key with
    | Some v => (Returned (v, true), w)
    | None => (Returned (EmptyString, false), w)
    end.

(** [func Unsetenv(key string) error] *)
Definition Unsetenv {T} (key : string) : M T error :=
  fun w => (Returned nil, World (delete key (environ w)) (unsets w ++ [key]) (cell w)).

End os.

(** ** First revision (src/unnamed/part_000) *)

Module rev1.

(** [func Get(key, def string) string] *)
Definition Get {T} (key def : string) : M T string :=
  '(env, ok) ← os.LookupEnv key;
  if negb ok then ret def
  else
    os.Unsetenv key;;
    ret env.

End rev1.

(** ** Middle revision (src/unnamed/part_001) *)

(** Values of Go's integer types are integers of [Z] in the range of the
    type; the conversions [int32(x)], [int(x)], ... are written out. *)

Module rev2.
Section WithPlatform.
Context `{Platform}.

(** [intsize = int(unsafe.Sizeof(int(0))) * 8] *)
Definition intsize : Z := sizeof_int host * 8.
(** [uintsize = int(unsafe.Sizeof(uint(0))) * 8] *)
Definition uintsize : Z := sizeof_int host * 8.

(** [func GetString(key string) (output string, ok bool)] *)
Definition GetString {T} (key : string) : M T (string * bool) :=
  '(env, ok) ← os.LookupEnv key;
  if negb ok then ret (env, ok)
  else defer (os.Unsetenv key) (ret (env, ok)).

(** [func String(output *string, key string)] *)
Definition String (output : pointer) (key : string) : M string unit :=
  '(val, ok) ← GetString key;
  if ok then store output val else ret tt.

(** [func GetBool(key string) (output bool, ok bool, err error)] *)
Definition GetBool {T} (key : string) : M T (bool * bool * error) :=
  '(env, ok) ← os.LookupEnv key;
  if negb ok then ret (false, ok, nil)
  else defer (os.Unsetenv key) (
    let '(val, err) := strconv.ParseBool env in
    ret (val, ok, err)).

(** [func Bool(output *bool, key string) error] *)
Definition Bool (output : pointer) (key : string) : M bool error :=
  '(val, ok, err) ← GetBool key;
  if negb (is_nil err) then ret err
  else
    (if ok then store output val else ret tt);;
    ret nil.

(** [func GetFloat64(key string) (output float64, ok bool, err error)] *)
Definition GetFloat64 {T} (key : string) : M T (float64 * bool * error) :=
  '(env, ok) ← os.LookupEnv key;
  if negb ok then ret (float64_zero, ok, nil)
  else defer (os.Unsetenv key) (
    let '(val, err) := ParseFloat env 64 in
    ret (val, ok, err)).

(** [func Float64(output *float64, key string) error] *)
Definition Float64 (output : pointer) (key : string) : M float64 error :=
  '(val, ok, err) ← GetFloat64 key;
  if negb (is_nil err) then ret err
  else
    (if ok then store output val else ret tt);;
    ret nil.

(** [func GetFloat32(key string) (output float32, ok bool, err error)] *)
Definition GetFloat32 {T} (key : string) : M T (float32 * bool * error) :=
  '(env, ok) ← os.LookupEnv key;
  if negb ok then ret (float32_zero, ok, nil)
  else defer (os.Unsetenv key) (
    let '(val, err) := ParseFloat env 32 in
    ret (to_float32 val, ok, err)).

(** [func Float32(output *float32, key string) error] *)
Definition Float32 (output : pointer) (key : string) : M float32 error :=
  '(val, ok, err) ← GetFloat32 key;
  if negb (is_nil err) then ret err
  else
    (if ok then store output val else ret tt);;
    ret nil.

(** [func GetInt64(key string) (output int64, ok bool, err error)] *)
Definition GetInt64 {T} (key : string) : M T (Z * bool * error) :=
  '(env, ok) ← os.LookupEnv key;
  if negb ok then ret (0, ok, nil)
  else defer (os.Unsetenv key) (
    let '(val, err) := strconv.ParseInt env 0 64 in
    ret (val, ok, err)).

(** [func Int64(output *int64, key string) error] *)
Definition Int64 (output : pointer) (key : string) : M Z error :=
  '(val, ok, err) ← GetInt64 key;
  if negb (is_nil err) then ret err
  else
    (if ok then store output val else ret tt);;
    ret nil.

(** [func GetInt32(key string) (output int32, ok bool, err error)] *)
Definition GetInt32 {T} (key : string) : M T (Z * bool * error) :=
  '(env, ok) ← os.LookupEnv key;
  if negb ok then ret (0, ok, nil)
  else defer (os.Unsetenv key) (
    let '(val, err) := strconv.ParseInt env 0 32 in
    ret (int32 val, ok, err)).

(** [func Int32(output *int32, key string) error] *)
Definition Int32 (output : pointer) (key : string) : M Z error :=
  '(val, ok, err) ← GetInt32 key;
  if negb (is_nil err) then ret err
  else
    (if ok then store output val else ret tt);;
    ret nil.

(** [func GetInt(key string) (output int, ok bool, err error)] *)
Definition GetInt {T} (key : string) : M T (Z * bool * error) :=
  '(env, ok) ← os.LookupEnv key;
  if negb ok then ret (0, ok, nil)
  else defer (os.Unsetenv key) (
    let '(val, err) := strconv.ParseInt env 0 intsize in
    ret (wrap_signed intsize val, ok, err)).

(** [func Int(output *int, key string) error] *)
Definition Int (output : pointer) (key : string) : M Z error :=
  '(val, ok, err) ← GetInt key;
  if negb (is_nil err) then ret err
  else
    (if ok then store output val else ret tt);;
    ret nil.

(** [func GetUint64(key string) (output uint64, ok bool, err error)] *)
Definition GetUint64 {T} (key : string) : M T (Z * bool * error) :=
  '(env, ok) ← os.LookupEnv key;
  if negb ok then ret (0, ok, nil)
  else defer (os.Unsetenv key) (
    let '(val, err) := strconv.ParseUint env 0 64 in
    ret (val, ok, err)).

(** [func Uint64(output *uint64, key string) error] *)
Definition Uint64 (output : pointer) (key : string) : M Z error :=
  '(val, ok, err) ← GetUint64 key;
  if negb (is_nil err) then ret err
  else
    (if ok then store output val else ret tt);;
    ret nil.

(** [func GetUint32(key string) (output uint32, ok bool, err error)] *)
Definition GetUint32 {T} (key : string) : M T (Z * bool * error) :=
  '(env, ok) ← os.LookupEnv key;
  if negb ok then ret (0, ok, nil)
  else defer (os.Unsetenv key) (
    let '(val, err) := strconv.ParseUint env 0 32 in
    ret (uint32 val, ok, err)).

(** [func Uint32(output *uint32, key string) error] *)
Definition Uint32 (output : pointer) (key : string) : M Z error :=
  '(val, ok, err) ← GetUint32 key;
  if negb (is_nil err) then ret err
  else
    (if ok then store output val else ret tt);;
    ret nil.

(** [func GetUint(key string) (output uint, ok bool, err error)] *)
Definition GetUint {T} (key : string) : M T (Z * bool * error) :=
  '(env, ok) ← os.LookupEnv key;
  if negb ok then ret (0, ok, nil)
  else defer (os.Unsetenv key) (
    let '(val, err) := strconv.ParseUint env 0 uintsize in
    ret (wrap_unsigned uintsize val, ok, err)).

(** [func Uint(output *uint, key string) error] *)
Definition Uint (output : pointer) (key : string) : M Z error :=
  '(val, ok, err) ← GetUint key;
  if negb (is_nil err) then ret err
  else
    (if ok then store output val else ret tt);;
    ret nil.

End WithPlatform.
End rev2.

(** ** Final revision (src/secureenv.go) *)

Module secureenv.
Section WithPlatform.
Context `{Platform}.

(** [intsize = int(unsafe.Sizeof(int(0))) * 8] *)
Definition intsize : Z := sizeof_int host * 8.
(** [uintsize = int(unsafe.Sizeof(uint(0))) * 8] *)
Definition uintsize : Z := sizeof_int host * 8.

(** [func String(output *string, key string)] *)
Definition String (output : pointer) (key : string) : M string unit :=
  '(env, ok) ← os.LookupEnv key;
  if negb ok then ret tt
  else defer (os.Unsetenv key) (
    store output env).

(** [func Bool(output *bool, key string) error] *)
Definition Bool (output : pointer) (key : string) : M bool error :=
  '(env, ok) ← os.LookupEnv key;
  if negb ok then ret nil
  else defer (os.Unsetenv key) (
    let '(val, err) := strconv.ParseBool env in
    if negb (is_nil err) then ret err
    else
      store output val;;
      ret nil).

(** [func Float64(output *float64, key string) error] *)
Definition Float64 (output : pointer) (key : string) : M float64 error :=
  '(env, ok) ← os.LookupEnv key;
  if negb ok then ret nil
  else defer (os.Unsetenv key) (
    let '(val, err) := ParseFloat env 64 in
    if negb (is_nil err) then ret err
    else
      store output val;;
      ret nil).

(** [func Float32(output *float32, key string) error] *)
Definition Float32 (output : pointer) (key : string) : M float32 error :=
  '(env, ok) ← os.LookupEnv key;
  if negb ok then ret nil
  else defer (os.Unsetenv key) (
    let '(val, err) := ParseFloat env 32 in
    if negb (is_nil err) then ret err
    else
      store output (to_float32 val);;
      ret nil).

(** [func Int64(output *int64, key string) error] *)
Definition Int64 (output : pointer) (key : string) : M Z error :=
  '(env, ok) ← os.LookupEnv key;
  if negb ok then ret nil
  else defer (os.Unsetenv key) (
    let '(val, err) := strconv.ParseInt env 0 64 in
    if negb (is_nil err) then ret err
    else
      store output val;;
      ret nil).

(** [func Int32(output *int32, key string) error] *)
Definition Int32 (output : pointer) (key : string) : M Z error :=
  '(env, ok) ← os.LookupEnv key;
  if negb ok then ret nil
  else defer (os.Unsetenv key) (
    let '(val, err) := strconv.ParseInt env 0 32 in
    if negb (is_nil err) then ret err
    else
      store output (int32 val);;
      ret nil).

(** [func Int(output *int, key string) error] *)
Definition Int (output : pointer) (key : string) : M Z error :=
  '(env, ok) ← os.LookupEnv key;
  if negb ok then ret nil
  else defer (os.Unsetenv key) (
    let '(val, err) := strconv.ParseInt env 0 intsize in
    if negb (is_nil err) then ret err
    else
      store output (wrap_signed intsize val);;
      ret nil).

(** [func Uint64(output *uint64, key string) error] *)
Definition Uint64 (output : pointer) (key : string) : M Z error :=
  '(env, ok) ← os.LookupEnv key;
  if negb ok then ret nil
  else defer (os.Unsetenv key) (
    let '(val, err) := strconv.ParseUint env 0 64 in
    if negb (is_nil err) then ret err
    else
      store output val;;
      ret nil).

(** [func Uint32(output *uint32, key string) error] *)
Definition Uint32 (output : pointer) (key : string) : M Z error :=
  '(env, ok) ← os.LookupEnv key;
  if negb ok then ret nil
  else defer (os.Unsetenv key) (
    let '(val, err) := strconv.ParseUint env 0 32 in
    if negb (is_nil err) then ret err
    else
      store output (uint32 val);;
      ret nil).

(** [func Uint(output *uint, key string) error] *)
Definition Uint (output : pointer) (key : string) : M Z error :=
  '(env, ok) ← os.LookupEnv key;
  if negb ok then ret nil
  else defer (os.Unsetenv key) (
    let '(val, err) := strconv.ParseUint env 0 uintsize in
    if negb (is_nil err) then ret err
    else
      store output (wrap_unsigned uintsize val);;
      ret nil).

End WithPlatform.
End secureenv.

(** ** What a call does, in closed form *)

(** The world after [os.Unsetenv(key)]. *)
Definition consumed {T} (key : string) (w : world T) : world T :=
  World (delete key (environ w)) (unsets w ++ [key]) (cell w).

(** The world after [*output = v]. *)
Definition written {T} (v : T) (w : world T) : world T :=
  World (environ w) (unsets w) v.

(** A fetcher that parses with [parse] and converts with [conv]. *)
Definition fetch_result {T R V} (zero : R) (parse : string -> V * error)
    (conv : V -> R) (key : string) (w : world T)
    : outcome (R * bool * error) * world T :=
  match environ w !! key with
  | None => (Returned (zero, false, nil), w)
  | Some s => (Returned (conv (parse s).1, true, (parse s).2), consumed key w)
  end.

(** An assigner that parses with [parse] and converts with [conv]. *)
Definition assign_result {T V} (parse : string -> V * error) (conv : V -> T)
    (output : pointer) (key : string) (w : world T) : outcome error * world T :=
  match environ w !! key with
  | None => (Returned nil, w)
  | Some s =>
    match (parse s).2 with
    | Some e => (Returned (Some e), consumed key w)
    | None =>
      match output with
      | addr => (Returned nil, written (conv (parse s).1) (consumed key w))
      | null => (Panicked, consumed key w)
      end
    end
  end.

(** [String], which has no result and cannot fail. *)
Definition assign_string_result (output : pointer) (key : string)
    (w : world string) : outcome unit * world string :=
  match environ w !! key with
  | None => (Returned tt, w)
  | Some s =>
    match output with
    | addr => (Returned tt, written s (consumed key w))
    | null => (Panicked, consumed key w)
    end
  end.

(** The environment a call on [key] leaves, and the [os.Unsetenv] calls it
    adds: the entry of [key] is deleted, once, when it was there. *)
Definition env_after {T} (key : string) (w : world T) : gmap string string :=
  match environ w !! key with
  | Some _ => delete key (environ w)
  | None => environ w
  end.

Definition unsets_after {T} (key : string) (w : world T) : list string :=
  match environ w !! key with
  | Some _ => (unsets w ++ [key])%list
  | None => unsets w
  end.

(** ** Properties of a call *)

(** A call on [key] removes the entry of [key] whenever it is present, however
    the call ends. *)
Definition removes {T A} (key : string) (call : M T A) : Prop :=
  forall (w : world T) (s : string),
    environ w !! key = Some s ->
    environ (call w).2 !! key = None
    /\ environ (call w).2 = delete key (environ w).

(** A second call right after a first one, however that one ended, finds
    the key absent: it returns [absent] and changes nothing. *)
Definition second_call_absent {T A} (call : M T A) (absent : A) : Prop :=
  forall w : world T,
    call (call w).2 = (Returned absent, (call w).2).

(** The only change a call on [key] makes to the environment is to delete
    the entry of [key], by one call of [os.Unsetenv], when it was present:
    every other entry is kept, no entry is created or updated, and no other
    call of [os.Unsetenv] is made. *)
Definition only_removes {T A} (key : string) (call : M T A) : Prop :=
  forall w : world T,
    (forall k, k <> key -> environ (call w).2 !! k = environ w !! k)
    /\ (forall k v, environ (call w).2 !! k = Some v -> environ w !! k = Some v)
    /\ (environ w !! key = None ->
        environ (call w).2 = environ w /\ unsets (call w).2 = unsets w)
    /\ (is_Some (environ w !! key) ->
        environ (call w).2 = delete key (environ w)
        /\ unsets (call w).2 = (unsets w ++ [key])%list).

(** What an assigner does with its output cell, for a parser [parse] and a
    conversion [conv] of the parsed value: on an absent key it changes
    nothing and returns no error, whatever the pointer; on a value that
    parses it writes the converted value and returns no error; on a value
    that does not parse it returns the parser's error and leaves the cell as
    it was, whatever the pointer. *)
Definition assigns {T V} (f : pointer -> string -> M T error)
    (parse : string -> V * error) (conv : V -> T) : Prop :=
  forall (key : string) (w : world T),
    (environ w !! key = None ->
     forall output, f output key w = (Returned nil, w))
    /\ (forall s v, environ w !! key = Some s -> parse s = (v, nil) ->
        (f addr key w).1 = Returned nil /\ cell (f addr key w).2 = conv v)
    /\ (forall s v e, environ w !! key = Some s -> parse s = (v, Some e) ->
        forall output,
          (f output key w).1 = Returned (Some e)
          /\ cell (f output key w).2 = cell w).

(** The same for [String], which cannot fail and returns nothing. *)
Definition assigns_string (f : pointer -> string -> M string unit) : Prop :=
  forall (key : string) (w : world string),
    (environ w !! key = None ->
     forall output, f output key w = (Returned tt, w))
    /\ (forall s, environ w !! key = Some s ->
        (f addr key w).1 = Returned tt /\ cell (f addr key w).2 = s).


(** The end [r] of an assigner call on [key] from the world [w], for a
    text that denotes [text]: the number is written and no error returned,
    or an error is returned and the cell left as it was; the key is
    consumed in both cases. *)
Definition reads (r : outcome error * world Z) (text : option Z)
    (key : string) (w : world Z) : Prop :=
  match text with
  | Some v => r = (Returned nil, written v (consumed key w))
  | None => exists e, r = (Returned (Some e), consumed key w)
  end.

(** ** The boolean tokens *)

Definition truthy_tokens : list string := ["1"; "t"; "T"; "TRUE"; "true"; "True"].
Definition falsy_tokens : list string := ["0"; "f"; "F"; "FALSE"; "false"; "False"].

(** ** Reading a number in a base *)

(** The digit a byte stands for: 0-9, and a-z or A-Z for 10 to 35. *)
Definition digit_value (c : ascii) : option Z :=
  let n := code c in
  if (48 <=? n) && (n <=? 57) then Some (n - 48)
  else if (97 <=? n) && (n <=? 122) then Some (n - 87)
  else if (65 <=? n) && (n <=? 90) then Some (n - 55)
  else None.

(** The number that the digits of [s] denote in base [b], most significant
    digit first, continuing from [acc]; [None] when a byte of [s] is not a
    digit of base [b]. *)
Fixpoint reading_from (b : Z) (acc : Z) (s : string) : option Z :=
  match s with
  | EmptyString => Some acc
  | String c s' =>
    match digit_value c with
    | Some d => if d <? b then reading_from b (acc * b + d) s' else None
    | None => None
    end
  end.

Definition reading (b : Z) (s : string) : option Z := reading_from b 0 s.

Definition is_char (c : ascii) (l : list ascii) : bool := existsb (Ascii.eqb c) l.

(** The base of a number text and its digits: a prefix [0b], [0o] or [0x]
    (either case) followed by at least one more byte selects base 2, 8 or
    16; any other leading [0] selects base 8; otherwise the base is 10. *)
Definition radix_of (s : string) : Z * string :=
  match s with
  | String z r =>
    if Ascii.eqb z "0" then
      match r with
      | String p (String _ _ as ds) =>
        if is_char p ["b"; "B"]%char then (2, ds)
        else if is_char p ["o"; "O"]%char then (8, ds)
        else if is_char p ["x"; "X"]%char then (16, ds)
        else (8, r)
      | _ => (8, r)
      end
    else (10, s)
  | EmptyString => (10, s)
  end.


(** The optional sign of a number text, and the text after it. *)
Definition sign_of (s : string) : bool * string :=
  match s with
  | String c r =>
    if Ascii.eqb c "+" then (false, r)
    else if Ascii.eqb c "-" then (true, r)
    else (false, s)
  | EmptyString => (false, s)
  end.


(** A text without the digit separator [_]. *)
Fixpoint no_underscore (s : string) : bool :=
  match s with
  | EmptyString => true
  | String c s' => negb (Ascii.eqb c "_") && no_underscore s'
  end.

(** A text of decimal digits only. *)
Fixpoint decimal_digits (s : string) : bool :=
  match s with
  | EmptyString => true
  | String c s' => (48 <=? code c) && (code c <=? 57) && decimal_digits s'
  end.

(** A decimal numeral: at least one decimal digit, the first one not 0. *)
Definition decimal_numeral (s : string) : bool :=
  match s with
  | EmptyString => false
  | String c _ => negb (Ascii.eqb c "0") && decimal_digits s
  end.

(** ** A platform to run the functions on *)

(** A 64-bit host.  The floating-point types are not interpreted: they
    have one value, and [ParseFloat] accepts the text ["0"] only. *)
Definition host64 : Platform := {|
  host := Arch64;
  float64 := unit;
  float32 := unit;
  float64_zero := tt;
  float32_zero := tt;
  to_float32 := fun x => x;
  ParseFloat := fun s _ =>
    if String.eqb s "0" then (tt, nil)
    else (tt, Some (strconv.syntaxError "ParseFloat" s))
|}.


(** A world with the given environment entries, no [os.Unsetenv] call made
    yet, and [c] in the output cell. *)
Definition world_of {T} (entries : list (string * string)) (c : T) : world T :=
  World (list_to_map entries) [] c.

(** ** Further properties of a call *)

(** An assigner panics exactly when it is given a nil pointer and has a
    parsed value to write; it never panics on a valid pointer; and with a
    nil pointer it leaves the environment it leaves with a valid one. *)
Definition panics_on_nil_write {T V} (f : pointer -> string -> M T error)
    (parse : string -> V * error) : Prop :=
  forall (key : string) (w : world T),
    ((f null key w).1 = Panicked
     <-> exists s, environ w !! key = Some s /\ (parse s).2 = nil)
    /\ (f addr key w).1 <> Panicked
    /\ environ (f null key w).2 = environ (f addr key w).2.

(** The same for [String], which writes every value it finds. *)
Definition string_panics_on_nil_write (f : pointer -> string -> M string unit)
    : Prop :=
  forall (key : string) (w : world string),
    ((f null key w).1 = Panicked <-> is_Some (environ w !! key))
    /\ (f addr key w).1 <> Panicked
    /\ environ (f null key w).2 = environ (f addr key w).2.

(** What a call on [key] returns and writes depends on the entry of [key]
    and on the output cell only: not on any other entry of the environment,
    and not on the [os.Unsetenv] calls made before. *)
Definition depends_only_on_key {T A} (key : string) (call : M T A) : Prop :=
  forall w w' : world T,
    environ w !! key = environ w' !! key ->
    cell w = cell w' ->
    (call w).1 = (call w').1 /\ cell (call w).2 = cell (call w').2.

(** In the world [w] the key is absent, and [Get] and every fetcher report
    it absent and leave the world as it is. *)
Definition reported_absent `{Platform} {T} (key : string) (w : world T) : Prop :=
  environ w !! key = None
  /\ (forall def, rev1.Get key def w = (Returned def, w))
  /\ rev2.GetString key w = (Returned (EmptyString, false), w)
  /\ rev2.GetBool key w = (Returned (false, false, nil), w)
  /\ rev2.GetFloat64 key w = (Returned (float64_zero, false, nil), w)
  /\ rev2.GetFloat32 key w = (Returned (float32_zero, false, nil), w)
  /\ rev2.GetInt64 key w = (Returned (0, false, nil), w)
  /\ rev2.GetInt32 key w = (Returned (0, false, nil), w)
  /\ rev2.GetInt key w = (Returned (0, false, nil), w)
  /\ rev2.GetUint64 key w = (Returned (0, false, nil), w)
  /\ rev2.GetUint32 key w = (Returned (0, false, nil), w)
  /\ rev2.GetUint key w = (Returned (0, false, nil), w).

(** A call on [key] spends the key: in the world it leaves, however it
    ended and whether or not the key was there, the key is reported
    absent. *)
Definition spends `{Platform} {T A} (key : string) (call : M T A) : Prop :=
  forall w : world T, reported_absent key (call w).2.



(** ** Underscores *)

(** The text without its underscores. *)
Fixpoint strip_underscores (s : string) : string :=
  match s with
  | EmptyString => EmptyString
  | String c r =>
    if Ascii.eqb c "_" then strip_underscores r
    else String c (strip_underscores r)
  end.

Definition is_decimal (c : ascii) : bool := (48 <=? code c) && (code c <=? 57).

(** What may follow a decimal digit in a grouped numeral: decimal digits,
    each of them preceded by at most one underscore. *)
Fixpoint digit_groups (s : string) : bool :=
  match s with
  | EmptyString => true
  | String c r =>
    if is_decimal c then digit_groups r
    else if Ascii.eqb c "_" then
      match r with
      | String d r' => is_decimal d && digit_groups r'
      | EmptyString => false
      end
    else false
  end.

(** A decimal numeral with digit separators: it starts with a decimal
    digit other than 0, and every underscore stands between two digits. *)
Definition grouped_numeral (s : string) : bool :=
  match s with
  | String c r => is_decimal c && negb (Ascii.eqb c "0") && digit_groups r
  | EmptyString => false
  end.

(** * Properties *)

(** ** Every function in closed form *)

(** Runs a call symbolically: unfolds the monad, splits on the lookup, on
    the parser's result and on the pointer. *)
Ltac run_call :=
  intros;
  unfold fetch_result, assign_result, assign_string_result,
    bind, defer, os.LookupEnv, os.Unsetenv, store, ret, consumed, written;
  simpl;
  repeat match goal with
  | |- context [environ ?w !! ?k] => destruct (environ w !! k); simpl
  | |- context [let '(_, _) := ?p in _] => destruct p as [? [?|]]; simpl
  | |- context [match ?o with addr => _ | null => _ end] => destruct o; simpl
  end;
  try reflexivity.

Section ClosedForms.
Context `{Platform}.

Lemma rev1_Get_run {T} key def (w : world T) :
  rev1.Get key def w =
  match environ w !! key with
  | None => (Returned def, w)
  | Some s => (Returned s, consumed key w)
  end.
Proof. unfold rev1.Get. run_call. Qed.

Lemma GetString_run {T} key (w : world T) :
  rev2.GetString key w =
  match environ w !! key with
  | None => (Returned (EmptyString, false), w)
  | Some s => (Returned (s, true), consumed key w)
  end.
Proof. unfold rev2.GetString. run_call. Qed.

Lemma GetBool_run {T} key (w : world T) :
  rev2.GetBool key w = fetch_result false strconv.ParseBool id key w.
Proof. unfold rev2.GetBool. run_call. Qed.

Lemma GetFloat64_run {T} key (w : world T) :
  rev2.GetFloat64 key w =
  fetch_result float64_zero (fun s => ParseFloat s 64) id key w.
Proof. unfold rev2.GetFloat64. run_call. Qed.

Lemma GetFloat32_run {T} key (w : world T) :
  rev2.GetFloat32 key w =
  fetch_result float32_zero (fun s => ParseFloat s 32) to_float32 key w.
Proof. unfold rev2.GetFloat32. run_call. Qed.

Lemma GetInt64_run {T} key (w : world T) :
  rev2.GetInt64 key w =
  fetch_result 0 (fun s => strconv.ParseInt s 0 64) id key w.
Proof. unfold rev2.GetInt64. run_call. Qed.

Lemma GetInt32_run {T} key (w : world T) :
  rev2.GetInt32 key w =
  fetch_result 0 (fun s => strconv.ParseInt s 0 32) int32 key w.
Proof. unfold rev2.GetInt32. run_call. Qed.

Lemma GetInt_run {T} key (w : world T) :
  rev2.GetInt key w =
  fetch_result 0 (fun s => strconv.ParseInt s 0 rev2.intsize)
    (wrap_signed rev2.intsize) key w.
Proof. unfold rev2.GetInt. run_call. Qed.

Lemma GetUint64_run {T} key (w : world T) :
  rev2.GetUint64 key w =
  fetch_result 0 (fun s => strconv.ParseUint s 0 64) id key w.
Proof. unfold rev2.GetUint64. run_call. Qed.

Lemma GetUint32_run {T} key (w : world T) :
  rev2.GetUint32 key w =
  fetch_result 0 (fun s => strconv.ParseUint s 0 32) uint32 key w.
Proof. unfold rev2.GetUint32. run_call. Qed.

Lemma GetUint_run {T} key (w : world T) :
  rev2.GetUint key w =
  fetch_result 0 (fun s => strconv.ParseUint s 0 rev2.uintsize)
    (wrap_unsigned rev2.uintsize) key w.
Proof. unfold rev2.GetUint. run_call. Qed.

Lemma rev2_String_run output key (w : world string) :
  rev2.String output key w = assign_string_result output key w.
Proof. unfold rev2.String, rev2.GetString. run_call. Qed.

Lemma rev2_Bool_run output key (w : world bool) :
  rev2.Bool output key w =
  assign_result strconv.ParseBool id output key w.
Proof. unfold rev2.Bool, rev2.GetBool. run_call. Qed.

Lemma rev2_Float64_run output key (w : world float64) :
  rev2.Float64 output key w =
  assign_result (fun s => ParseFloat s 64) id output key w.
Proof. unfold rev2.Float64, rev2.GetFloat64. run_call. Qed.

Lemma rev2_Float32_run output key (w : world float32) :
  rev2.Float32 output key w =
  assign_result (fun s => ParseFloat s 32) to_float32 output key w.
Proof. unfold rev2.Float32, rev2.GetFloat32. run_call. Qed.

Lemma rev2_Int64_run output key (w : world Z) :
  rev2.Int64 output key w =
  assign_result (fun s => strconv.ParseInt s 0 64) id output key w.
Proof. unfold rev2.Int64, rev2.GetInt64. run_call. Qed.

Lemma rev2_Int32_run output key (w : world Z) :
  rev2.Int32 output key w =
  assign_result (fun s => strconv.ParseInt s 0 32) int32 output key w.
Proof. unfold rev2.Int32, rev2.GetInt32. run_call. Qed.

Lemma rev2_Int_run output key (w : world Z) :
  rev2.Int output key w =
  assign_result (fun s => strconv.ParseInt s 0 rev2.intsize) (wrap_signed rev2.intsize) output key w.
Proof. unfold rev2.Int, rev2.GetInt. run_call. Qed.

Lemma rev2_Uint64_run output key (w : world Z) :
  rev2.Uint64 output key w =
  assign_result (fun s => strconv.ParseUint s 0 64) id output key w.
Proof. unfold rev2.Uint64, rev2.GetUint64. run_call. Qed.

Lemma rev2_Uint32_run output key (w : world Z) :
  rev2.Uint32 output key w =
  assign_result (fun s => strconv.ParseUint s 0 32) uint32 output key w.
Proof. unfold rev2.Uint32, rev2.GetUint32. run_call. Qed.

Lemma rev2_Uint_run output key (w : world Z) :
  rev2.Uint output key w =
  assign_result (fun s => strconv.ParseUint s 0 rev2.uintsize) (wrap_unsigned rev2.uintsize) output key w.
Proof. unfold rev2.Uint, rev2.GetUint. run_call. Qed.

Lemma String_run output key (w : world string) :
  secureenv.String output key w = assign_string_result output key w.
Proof. unfold secureenv.String. run_call. Qed.

Lemma Bool_run output key (w : world bool) :
  secureenv.Bool output key w =
  assign_result strconv.ParseBool id output key w.
Proof. unfold secureenv.Bool. run_call. Qed.

Lemma Float64_run output key (w : world float64) :
  secureenv.Float64 output key w =
  assign_result (fun s => ParseFloat s 64) id output key w.
Proof. unfold secureenv.Float64. run_call. Qed.

Lemma Float32_run output key (w : world float32) :
  secureenv.Float32 output key w =
  assign_result (fun s => ParseFloat s 32) to_float32 output key w.
Proof. unfold secureenv.Float32. run_call. Qed.

Lemma Int64_run output key (w : world Z) :
  secureenv.Int64 output key w =
  assign_result (fun s => strconv.ParseInt s 0 64) id output key w.
Proof. unfold secureenv.Int64. run_call. Qed.

Lemma Int32_run output key (w : world Z) :
  secureenv.Int32 output key w =
  assign_result (fun s => strconv.ParseInt s 0 32) int32 output key w.
Proof. unfold secureenv.Int32. run_call. Qed.

Lemma Int_run output key (w : world Z) :
  secureenv.Int output key w =
  assign_result (fun s => strconv.ParseInt s 0 secureenv.intsize) (wrap_signed secureenv.intsize) output key w.
Proof. unfold secureenv.Int. run_call. Qed.

Lemma Uint64_run output key (w : world Z) :
  secureenv.Uint64 output key w =
  assign_result (fun s => strconv.ParseUint s 0 64) id output key w.
Proof. unfold secureenv.Uint64. run_call. Qed.

Lemma Uint32_run output key (w : world Z) :
  secureenv.Uint32 output key w =
  assign_result (fun s => strconv.ParseUint s 0 32) uint32 output key w.
Proof. unfold secureenv.Uint32. run_call. Qed.

Lemma Uint_run output key (w : world Z) :
  secureenv.Uint output key w =
  assign_result (fun s => strconv.ParseUint s 0 secureenv.uintsize) (wrap_unsigned secureenv.uintsize) output key w.
Proof. unfold secureenv.Uint. run_call. Qed.

End ClosedForms.

Create Rewrite HintDb closed_form.
#[global] Hint Rewrite
  @GetBool_run @GetFloat64_run @GetFloat32_run
  @GetInt64_run @GetInt32_run @GetInt_run @GetUint64_run @GetUint32_run
  @GetUint_run
  @rev2_String_run @rev2_Bool_run @rev2_Float64_run @rev2_Float32_run
  @rev2_Int64_run @rev2_Int32_run @rev2_Int_run @rev2_Uint64_run
  @rev2_Uint32_run @rev2_Uint_run
  @String_run @Bool_run @Float64_run @Float32_run @Int64_run @Int32_run
  @Int_run @Uint64_run @Uint32_run @Uint_run : closed_form.

(** ** The environment after a call *)

Section Effects.
Context {T R V : Type}.
Implicit Types (key : string) (w : world T).

Lemma fetch_result_effect (zero : R) (parse : string -> V * error) conv key w :
  environ (fetch_result zero parse conv key w).2 = env_after key w
  /\ unsets (fetch_result zero parse conv key w).2 = unsets_after key w
  /\ cell (fetch_result zero parse conv key w).2 = cell w.
Proof.
  unfold fetch_result, env_after, unsets_after.
  destruct (environ w !! key); auto.
Qed.

Lemma assign_result_effect (parse : string -> V * error) (conv : V -> T)
    output key w :
  environ (assign_result parse conv output key w).2 = env_after key w
  /\ unsets (assign_result parse conv output key w).2 = unsets_after key w.
Proof.
  unfold assign_result, env_after, unsets_after.
  destruct (environ w !! key); auto.
  destruct (parse s).2; auto. destruct output; auto.
Qed.

Lemma rev1_Get_effect key def w :
  environ (rev1.Get key def w).2 = env_after key w
  /\ unsets (rev1.Get key def w).2 = unsets_after key w
  /\ cell (rev1.Get key def w).2 = cell w.
Proof.
  rewrite rev1_Get_run. unfold env_after, unsets_after.
  destruct (environ w !! key); auto.
Qed.

Lemma GetString_effect key w :
  environ (rev2.GetString key w).2 = env_after key w
  /\ unsets (rev2.GetString key w).2 = unsets_after key w
  /\ cell (rev2.GetString key w).2 = cell w.
Proof.
  rewrite GetString_run. unfold env_after, unsets_after.
  destruct (environ w !! key); auto.
Qed.

Lemma env_after_present key w s :
  environ w !! key = Some s ->
  env_after key w = delete key (environ w) /\ env_after key w !! key = None.
Proof.
  intros Hs. unfold env_after. rewrite Hs. split; [done | apply lookup_delete_eq].
Qed.

Lemma env_after_lookup key w : env_after key w !! key = None.
Proof.
  unfold env_after. destruct (environ w !! key) eqn:E; [apply lookup_delete_eq | done].
Qed.

Lemma env_after_other key w k :
  k <> key -> env_after key w !! k = environ w !! k.
Proof.
  intros Hk. unfold env_after.
  destruct (environ w !! key); [by apply lookup_delete_ne | done].
Qed.

Lemma env_after_sub key w k v :
  env_after key w !! k = Some v -> environ w !! k = Some v.
Proof.
  unfold env_after. destruct (environ w !! key); [| done].
  rewrite lookup_delete_Some. tauto.
Qed.

End Effects.

Lemma assign_string_result_effect output key (w : world string) :
  environ (assign_string_result output key w).2 = env_after key w
  /\ unsets (assign_string_result output key w).2 = unsets_after key w.
Proof.
  unfold assign_string_result, env_after, unsets_after.
  destruct (environ w !! key); auto. destruct output; auto.
Qed.

(** Rewrites every call to its closed form and exposes its effect. *)
Ltac closed := autorewrite with closed_form.

(** Splits a conjunction of claims about the functions of the package
    without unfolding the claims. *)
Ltac each_function :=
  repeat match goal with
  | |- _ /\ _ => split
  | |- forall _ : Type, _ => intro
  | |- forall _ : string, _ => intro
  end.

Ltac use_effect :=
  match goal with
  | |- context [fetch_result ?z ?p ?c ?k ?w] =>
    destruct (fetch_result_effect z p c k w) as (? & ? & ?)
  | |- context [assign_result ?p ?c ?o ?k ?w] =>
    destruct (assign_result_effect p c o k w) as (? & ?)
  | |- context [assign_string_result ?o ?k ?w] =>
    destruct (assign_string_result_effect o k w) as (? & ?)
  | |- context [rev1.Get ?k ?d ?w] =>
    destruct (rev1_Get_effect k d w) as (? & ? & ?)
  | |- context [rev2.GetString ?k ?w] =>
    destruct (GetString_effect k w) as (? & ? & ?)
  end.

Section Generic.
Context {T A : Type}.
Implicit Types (key : string) (w : world T) (call : M T A).

Lemma removes_intro key call :
  (forall w, environ (call w).2 = env_after key w) -> removes key call.
Proof.
  intros Hc w s Hs. rewrite Hc.
  destruct (env_after_present key w s Hs) as [-> _].
  split; [apply lookup_delete_eq | done].
Qed.

Lemma only_removes_intro key call :
  (forall w, environ (call w).2 = env_after key w
             /\ unsets (call w).2 = unsets_after key w) ->
  only_removes key call.
Proof.
  intros Hc w. destruct (Hc w) as [He Hu]. rewrite He, Hu.
  split; [intros k Hk; by apply env_after_other |].
  split; [intros k v; apply env_after_sub |].
  unfold env_after, unsets_after.
  split; [intros -> ; done | intros [s ->]; done].
Qed.

End Generic.

Lemma fetch_result_again {T R V} (zero : R) (parse : string -> V * error)
    (conv : V -> R) key (w : world T) :
  let w1 := (fetch_result zero parse conv key w).2 in
  fetch_result zero parse conv key w1 = (Returned (zero, false, nil), w1).
Proof.
  intros w1. destruct (fetch_result_effect zero parse conv key w) as [He _].
  unfold fetch_result at 1. fold w1 in He. rewrite He, env_after_lookup. done.
Qed.

Lemma assign_result_again {T V} (parse : string -> V * error) (conv : V -> T)
    output key (w : world T) :
  let w1 := (assign_result parse conv output key w).2 in
  assign_result parse conv output key w1 = (Returned nil, w1).
Proof.
  intros w1. destruct (assign_result_effect parse conv output key w) as [He _].
  unfold assign_result at 1. fold w1 in He. rewrite He, env_after_lookup. done.
Qed.

Lemma rev1_Get_again {T} key def (w : world T) :
  rev1.Get key def (rev1.Get key def w).2 = (Returned def, (rev1.Get key def w).2).
Proof.
  destruct (rev1_Get_effect key def w) as (He & _).
  set (w1 := (rev1.Get key def w).2) in *.
  rewrite (rev1_Get_run key def w1), He, env_after_lookup. done.
Qed.

Lemma GetString_again `{Platform} {T} key (w : world T) :
  rev2.GetString key (rev2.GetString key w).2
  = (Returned (EmptyString, false), (rev2.GetString key w).2).
Proof.
  destruct (GetString_effect key w) as (He & _).
  set (w1 := (rev2.GetString key w).2) in *.
  rewrite (GetString_run key w1), He, env_after_lookup. done.
Qed.

Lemma assign_string_result_again output key (w : world string) :
  let w1 := (assign_string_result output key w).2 in
  assign_string_result output key w1 = (Returned tt, w1).
Proof.
  intros w1. destruct (assign_string_result_effect output key w) as [He _].
  unfold assign_string_result at 1. fold w1 in He.
  rewrite He, env_after_lookup. done.
Qed.

(** ** The key is removed on every exit path *)

(** C1: for every key that is present in the environment, every typed
    accessor call (the fetchers [Get*] and the assigners of the middle
    revision, and the assigners of the final revision, for every target
    type and every output pointer, nil included) leaves the environment
    without that key when the call ends, whether it returns a value, returns
    the parse error, or panics: the environment it leaves is the one it
    found minus the entry of the key. *)
Theorem key_removed_on_every_exit `{Platform} (key : string) (output : pointer) :
  (forall T : Type,
     removes (T:=T) key (rev2.GetString key)
     /\ removes (T:=T) key (rev2.GetBool key)
     /\ removes (T:=T) key (rev2.GetFloat64 key)
     /\ removes (T:=T) key (rev2.GetFloat32 key)
     /\ removes (T:=T) key (rev2.GetInt64 key)
     /\ removes (T:=T) key (rev2.GetInt32 key)
     /\ removes (T:=T) key (rev2.GetInt key)
     /\ removes (T:=T) key (rev2.GetUint64 key)
     /\ removes (T:=T) key (rev2.GetUint32 key)
     /\ removes (T:=T) key (rev2.GetUint key))
  /\ (removes key (rev2.String output key)
      /\ removes key (rev2.Bool output key)
      /\ removes key (rev2.Float64 output key)
      /\ removes key (rev2.Float32 output key)
      /\ removes key (rev2.Int64 output key)
      /\ removes key (rev2.Int32 output key)
      /\ removes key (rev2.Int output key)
      /\ removes key (rev2.Uint64 output key)
      /\ removes key (rev2.Uint32 output key)
      /\ removes key (rev2.Uint output key))
  /\ (removes key (secureenv.String output key)
      /\ removes key (secureenv.Bool output key)
      /\ removes key (secureenv.Float64 output key)
      /\ removes key (secureenv.Float32 output key)
      /\ removes key (secureenv.Int64 output key)
      /\ removes key (secureenv.Int32 output key)
      /\ removes key (secureenv.Int output key)
      /\ removes key (secureenv.Uint64 output key)
      /\ removes key (secureenv.Uint32 output key)
      /\ removes key (secureenv.Uint output key)).
Proof.
  each_function; apply removes_intro; intros w; closed; use_effect; assumption.
Qed.

(** ** A second call finds the key absent *)

(** C7: for every key and every accessor, a second call right after a first
    one, whatever the outcome of the first (value, parse error or panic),
    behaves as on an absent key: it returns no error (the fetchers report
    the zero value and present = false, [Get] returns its default), removes
    nothing, makes no call of [os.Unsetenv] and leaves the output cell as it
    was. *)
Theorem second_call_is_absent `{Platform} (key : string) (output : pointer) :
  (forall (T : Type) (def : string),
     second_call_absent (T:=T) (rev1.Get key def) def)
  /\ (forall T : Type,
        second_call_absent (T:=T) (rev2.GetString key) (EmptyString, false)
        /\ second_call_absent (T:=T) (rev2.GetBool key) (false, false, nil)
        /\ second_call_absent (T:=T) (rev2.GetFloat64 key) (float64_zero, false, nil)
        /\ second_call_absent (T:=T) (rev2.GetFloat32 key) (float32_zero, false, nil)
        /\ second_call_absent (T:=T) (rev2.GetInt64 key) (0, false, nil)
        /\ second_call_absent (T:=T) (rev2.GetInt32 key) (0, false, nil)
        /\ second_call_absent (T:=T) (rev2.GetInt key) (0, false, nil)
        /\ second_call_absent (T:=T) (rev2.GetUint64 key) (0, false, nil)
        /\ second_call_absent (T:=T) (rev2.GetUint32 key) (0, false, nil)
        /\ second_call_absent (T:=T) (rev2.GetUint key) (0, false, nil))
  /\ (second_call_absent (rev2.String output key) tt
      /\ second_call_absent (rev2.Bool output key) nil
      /\ second_call_absent (rev2.Float64 output key) nil
      /\ second_call_absent (rev2.Float32 output key) nil
      /\ second_call_absent (rev2.Int64 output key) nil
      /\ second_call_absent (rev2.Int32 output key) nil
      /\ second_call_absent (rev2.Int output key) nil
      /\ second_call_absent (rev2.Uint64 output key) nil
      /\ second_call_absent (rev2.Uint32 output key) nil
      /\ second_call_absent (rev2.Uint output key) nil)
  /\ (second_call_absent (secureenv.String output key) tt
      /\ second_call_absent (secureenv.Bool output key) nil
      /\ second_call_absent (secureenv.Float64 output key) nil
      /\ second_call_absent (secureenv.Float32 output key) nil
      /\ second_call_absent (secureenv.Int64 output key) nil
      /\ second_call_absent (secureenv.Int32 output key) nil
      /\ second_call_absent (secureenv.Int output key) nil
      /\ second_call_absent (secureenv.Uint64 output key) nil
      /\ second_call_absent (secureenv.Uint32 output key) nil
      /\ second_call_absent (secureenv.Uint output key) nil).
Proof.
  each_function; intros w; closed;
    first [ apply fetch_result_again | apply assign_result_again
          | apply assign_string_result_again | apply rev1_Get_again
          | apply GetString_again ].
Qed.

(** ** The frame of a call *)

(** C8: for every accessor call on a key, the only change to the
    environment is the removal of that key's entry, by one call of
    [os.Unsetenv], and only when the key was present: every other entry
    keeps its value, no entry is created or updated, and when the key is
    absent neither the environment nor the log of [os.Unsetenv] calls
    changes. *)
Theorem only_the_key_is_removed `{Platform} (key : string) (output : pointer) :
  (forall (T : Type) (def : string), only_removes (T:=T) key (rev1.Get key def))
  /\ (forall T : Type,
        only_removes (T:=T) key (rev2.GetString key)
        /\ only_removes (T:=T) key (rev2.GetBool key)
        /\ only_removes (T:=T) key (rev2.GetFloat64 key)
        /\ only_removes (T:=T) key (rev2.GetFloat32 key)
        /\ only_removes (T:=T) key (rev2.GetInt64 key)
        /\ only_removes (T:=T) key (rev2.GetInt32 key)
        /\ only_removes (T:=T) key (rev2.GetInt key)
        /\ only_removes (T:=T) key (rev2.GetUint64 key)
        /\ only_removes (T:=T) key (rev2.GetUint32 key)
        /\ only_removes (T:=T) key (rev2.GetUint key))
  /\ (only_removes key (rev2.String output key)
      /\ only_removes key (rev2.Bool output key)
      /\ only_removes key (rev2.Float64 output key)
      /\ only_removes key (rev2.Float32 output key)
      /\ only_removes key (rev2.Int64 output key)
      /\ only_removes key (rev2.Int32 output key)
      /\ only_removes key (rev2.Int output key)
      /\ only_removes key (rev2.Uint64 output key)
      /\ only_removes key (rev2.Uint32 output key)
      /\ only_removes key (rev2.Uint output key))
  /\ (only_removes key (secureenv.String output key)
      /\ only_removes key (secureenv.Bool output key)
      /\ only_removes key (secureenv.Float64 output key)
      /\ only_removes key (secureenv.Float32 output key)
      /\ only_removes key (secureenv.Int64 output key)
      /\ only_removes key (secureenv.Int32 output key)
      /\ only_removes key (secureenv.Int output key)
      /\ only_removes key (secureenv.Uint64 output key)
      /\ only_removes key (secureenv.Uint32 output key)
      /\ only_removes key (secureenv.Uint output key)).
Proof.
  each_function; apply only_removes_intro; intros w; closed; use_effect; auto.
Qed.

(** ** The two typed revisions agree *)

(** C9: for every key, every starting world (environment and content of
    the output cell) and every output pointer, each assigner of the final
    revision ends the same way (same returned error, or panic on a nil
    pointer) and leaves the same world (output cell, environment and
    [os.Unsetenv] calls) as the assigner of the same name of the middle
    revision, which is built on the [Get*] fetcher. *)
Theorem final_revision_agrees_with_middle `{Platform} (key : string)
    (output : pointer) :
  (forall w, secureenv.String output key w = rev2.String output key w)
  /\ (forall w, secureenv.Bool output key w = rev2.Bool output key w)
  /\ (forall w, secureenv.Float64 output key w = rev2.Float64 output key w)
  /\ (forall w, secureenv.Float32 output key w = rev2.Float32 output key w)
  /\ (forall w, secureenv.Int64 output key w = rev2.Int64 output key w)
  /\ (forall w, secureenv.Int32 output key w = rev2.Int32 output key w)
  /\ (forall w, secureenv.Int output key w = rev2.Int output key w)
  /\ (forall w, secureenv.Uint64 output key w = rev2.Uint64 output key w)
  /\ (forall w, secureenv.Uint32 output key w = rev2.Uint32 output key w)
  /\ (forall w, secureenv.Uint output key w = rev2.Uint output key w).
Proof.
  each_function; intros w; closed; reflexivity.
Qed.

(** ** Fetching an absent key *)

(** C3: for every key that is not in the environment and every target
    type, the fetcher returns the zero value of the type, present = false
    and no error, and leaves the world (environment, [os.Unsetenv] calls,
    memory) exactly as it was. *)
Theorem fetch_absent `{Platform} {T} (key : string) (w : world T) :
  environ w !! key = None ->
  rev2.GetString key w = (Returned (EmptyString, false), w)
  /\ rev2.GetBool key w = (Returned (false, false, nil), w)
  /\ rev2.GetFloat64 key w = (Returned (float64_zero, false, nil), w)
  /\ rev2.GetFloat32 key w = (Returned (float32_zero, false, nil), w)
  /\ rev2.GetInt64 key w = (Returned (0, false, nil), w)
  /\ rev2.GetInt32 key w = (Returned (0, false, nil), w)
  /\ rev2.GetInt key w = (Returned (0, false, nil), w)
  /\ rev2.GetUint64 key w = (Returned (0, false, nil), w)
  /\ rev2.GetUint32 key w = (Returned (0, false, nil), w)
  /\ rev2.GetUint key w = (Returned (0, false, nil), w).
Proof.
  intros Habsent. rewrite GetString_run. closed.
  unfold fetch_result. rewrite Habsent. repeat split.
Qed.

(** ** The first revision *)

(** C10: [Get(key, def)] of the first revision returns [def] and leaves
    the world unchanged when the key is absent; when the key is present it
    returns the stored value and leaves the environment without the key,
    after one call of [os.Unsetenv]; in both cases it returns a string: it
    never panics and has no error result. *)
Theorem first_revision_Get {T} (key def : string) (w : world T) :
  (environ w !! key = None -> rev1.Get key def w = (Returned def, w))
  /\ (forall v, environ w !! key = Some v ->
        rev1.Get key def w
        = (Returned v, World (delete key (environ w)) (unsets w ++ [key])%list (cell w))
        /\ environ (rev1.Get key def w).2 !! key = None)
  /\ (exists v, (rev1.Get key def w).1 = Returned v).
Proof.
  rewrite rev1_Get_run. split; [| split].
  - intros ->. reflexivity.
  - intros v ->. split; [reflexivity | apply lookup_delete_eq].
  - destruct (environ w !! key); eauto.
Qed.

(** ** The boolean grammar *)

Lemma ParseBool_cases (s : string) :
  (In s ["1"; "t"; "T"; "TRUE"; "true"; "True"]
   /\ strconv.ParseBool s = (true, nil))
  \/ (In s ["0"; "f"; "F"; "FALSE"; "false"; "False"]
      /\ strconv.ParseBool s = (false, nil))
  \/ (~ In s ["1"; "t"; "T"; "TRUE"; "true"; "True"]
      /\ ~ In s ["0"; "f"; "F"; "FALSE"; "false"; "False"]
      /\ strconv.ParseBool s = (false, Some (strconv.syntaxError "ParseBool" s))).
Proof.
  unfold strconv.ParseBool.
  destruct (existsb (String.eqb s) ["1"; "t"; "T"; "true"; "TRUE"; "True"]) eqn:Et.
  - left. split; [| reflexivity].
    apply existsb_exists in Et as (x & Hx & Heq). apply String.eqb_eq in Heq.
    subst x. simpl in Hx |- *. tauto.
  - destruct (existsb (String.eqb s) ["0"; "f"; "F"; "false"; "FALSE"; "False"]) eqn:Ef.
    + right; left. split; [| reflexivity].
      apply existsb_exists in Ef as (x & Hx & Heq). apply String.eqb_eq in Heq.
      subst x. simpl in Hx |- *. tauto.
    + right; right. repeat split.
      * intros Hin. apply not_true_iff_false in Et. apply Et.
        apply existsb_exists. exists s. split; [simpl in *; tauto | apply String.eqb_refl].
      * intros Hin. apply not_true_iff_false in Ef. apply Ef.
        apply existsb_exists. exists s. split; [simpl in *; tauto | apply String.eqb_refl].
Qed.

(** C5: for every raw string value of a present key, the boolean accessors
    ([GetBool], and [Bool] of both revisions) parse it without error if and
    only if it is one of the twelve tokens: a truthy token yields true, a
    falsy token yields false (the assigners write it to the output cell),
    and every other string yields a parse error, the syntax error of
    [ParseBool]. *)
Theorem boolean_grammar (key s : string) (w : world bool) :
  environ w !! key = Some s ->
  ((strconv.ParseBool s).2 = nil <-> In s (truthy_tokens ++ falsy_tokens))
  /\ (In s truthy_tokens ->
      rev2.GetBool key w = (Returned (true, true, nil), consumed key w)
      /\ rev2.Bool addr key w = (Returned nil, written true (consumed key w))
      /\ secureenv.Bool addr key w = (Returned nil, written true (consumed key w)))
  /\ (In s falsy_tokens ->
      rev2.GetBool key w = (Returned (false, true, nil), consumed key w)
      /\ rev2.Bool addr key w = (Returned nil, written false (consumed key w))
      /\ secureenv.Bool addr key w = (Returned nil, written false (consumed key w)))
  /\ (~ In s (truthy_tokens ++ falsy_tokens) ->
      let e := strconv.syntaxError "ParseBool" s in
      rev2.GetBool key w = (Returned (false, true, Some e), consumed key w)
      /\ rev2.Bool addr key w = (Returned (Some e), consumed key w)
      /\ secureenv.Bool addr key w = (Returned (Some e), consumed key w)).
Proof.
  intros Hs. closed. unfold fetch_result, assign_result. rewrite Hs.
  assert (Hdisj : forall x, In x truthy_tokens -> In x falsy_tokens -> False).
  { intros x Ht Hf. simpl in Ht, Hf.
    repeat (destruct Ht as [<- | Ht]; [intuition discriminate |]). done. }
  destruct (ParseBool_cases s) as [(Hin & ->) | [(Hin & ->) | (Hn1 & Hn2 & ->)]];
    fold truthy_tokens in *; fold falsy_tokens in *; cbn [fst snd id nil].
  - split; [split; [intros _; apply in_or_app; auto | done] |].
    split; [| split]; intros Hx;
      first [ by repeat split | exfalso; eauto using in_or_app ].
  - split; [split; [intros _; apply in_or_app; auto | done] |].
    split; [| split]; intros Hx;
      first [ by repeat split | exfalso; eauto using in_or_app ].
  - split; [split; [done | intros Hx; apply in_app_or in Hx; tauto] |].
    split; [| split]; intros Hx; first [ by repeat split | exfalso; tauto ].
Qed.

(** ** Bytes and digits *)

(** Proves a fact about every byte by checking the 256 of them. *)
Ltac every_byte c :=
  destruct c as [[] [] [] [] [] [] [] []]; vm_compute; try reflexivity;
  try (intros; discriminate); try (split; congruence).

Lemma digit_is_digit_value (c : ascii) : strconv.digit (code c) = digit_value c.
Proof. every_byte c. Qed.

Lemma digit_value_bounds (c : ascii) (d : Z) :
  digit_value c = Some d -> 0 <= d <= 35.
Proof.
  unfold digit_value.
  assert (0 <= code c < 256).
  { unfold code. pose proof (N_ascii_bounded c). lia. }
  repeat case_match; intros [= <-]; lia.
Qed.

Lemma underscore_test (c : ascii) : (code c =? code "_") = Ascii.eqb c "_".
Proof. every_byte c. Qed.

Lemma zero_test (c : ascii) : (code c =? code "0") = Ascii.eqb c "0".
Proof. every_byte c. Qed.

Lemma plus_test (c : ascii) : (code c =? code "+") = Ascii.eqb c "+".
Proof. every_byte c. Qed.

Lemma minus_test (c : ascii) : (code c =? code "-") = Ascii.eqb c "-".
Proof. every_byte c. Qed.

Lemma prefix_b_test (c : ascii) :
  (strconv.lower (code c) =? code "b") = is_char c ["b"; "B"]%char.
Proof. every_byte c. Qed.

Lemma prefix_o_test (c : ascii) :
  (strconv.lower (code c) =? code "o") = is_char c ["o"; "O"]%char.
Proof. every_byte c. Qed.

Lemma prefix_x_test (c : ascii) :
  (strconv.lower (code c) =? code "x") = is_char c ["x"; "X"]%char.
Proof. every_byte c. Qed.

Lemma len_cons (c : ascii) (s : string) : len (String c s) = 1 + len s.
Proof. unfold len. simpl String.length. lia. Qed.

Lemma len_nonneg (s : string) : 0 <= len s.
Proof. unfold len. lia. Qed.

(** ** Machine arithmetic *)

Lemma uint64_small (z : Z) : 0 <= z < 2 ^ 64 -> uint64 z = z.
Proof. intros Hz. unfold uint64, wrap_unsigned. by apply Z.mod_small. Qed.

Lemma uint64_range (z : Z) : 0 <= uint64 z < 2 ^ 64.
Proof. unfold uint64, wrap_unsigned. apply Z.mod_pos_bound. lia. Qed.

Lemma byte_small (z : Z) : 0 <= z < 256 -> byte z = z.
Proof. intros Hz. unfold byte, wrap_unsigned. by apply Z.mod_small. Qed.

Lemma wrap_unsigned_small (w z : Z) :
  0 <= z < 2 ^ w -> wrap_unsigned w z = z.
Proof. intros Hz. unfold wrap_unsigned. by apply Z.mod_small. Qed.

Lemma wrap_signed_small (w z : Z) :
  0 < w -> - 2 ^ (w - 1) <= z < 2 ^ (w - 1) -> wrap_signed w z = z.
Proof.
  intros Hw Hz. unfold wrap_signed.
  assert (Hp : 2 ^ w = 2 * 2 ^ (w - 1)).
  { replace w with (Z.succ (w - 1)) at 1 by lia. apply Z.pow_succ_r. lia. }
  assert (0 < 2 ^ (w - 1)) by (apply Z.pow_pos_nonneg; lia).
  destruct (Z_lt_le_dec z 0).
  - replace (z mod 2 ^ w) with (z + 2 ^ w).
    + destruct (Z.ltb_spec (z + 2 ^ w) (2 ^ (w - 1))); lia.
    + symmetry. rewrite <- (Z.mod_add z 1 (2 ^ w)) by lia.
      rewrite Z.mul_1_l. apply Z.mod_small. lia.
  - rewrite Z.mod_small by lia.
    destruct (Z.ltb_spec z (2 ^ (w - 1))); lia.
Qed.

(** ** The digit loop *)

Lemma reading_from_ge (b : Z) (s : string) :
  1 <= b -> forall acc v, 0 <= acc -> reading_from b acc s = Some v -> acc <= v.
Proof.
  intros Hb. induction s as [| c s IH]; intros acc v Hacc; cbn [reading_from].
  - intros [= <-]. lia.
  - destruct (digit_value c) as [d |] eqn:Hd; [| discriminate].
    apply digit_value_bounds in Hd.
    destruct (Z.ltb_spec d b); [| discriminate].
    intros Hv. apply IH in Hv; nia.
Qed.

(** An early return of the loop is a syntax error with value 0, or a range
    error with the largest value. *)
Lemma digits_loop_early (fn s0 : string) (base : Z) (base0 : bool)
    (cutoff maxVal : Z) (s : string) : forall u n r,
  strconv.digits_loop fn s0 base base0 cutoff maxVal s u n = inl r ->
  r = (0, Some (strconv.syntaxError fn s0))
  \/ r = (maxVal, Some (strconv.rangeError fn s0)).
Proof.
  induction s as [| c s IH]; intros u n r; cbn [strconv.digits_loop].
  - discriminate.
  - repeat case_match; try (intros [= <-]; auto); eauto.
Qed.

(** A loop that runs to the end yields a number within the bit size. *)
Lemma digits_loop_done (fn s0 : string) (base : Z) (base0 : bool)
    (cutoff maxVal : Z) (s : string) : forall u n v u',
  0 <= n <= maxVal ->
  strconv.digits_loop fn s0 base base0 cutoff maxVal s u n = inr (v, u') ->
  0 <= v <= maxVal.
Proof.
  induction s as [| c s IH]; intros u n v u' Hn; cbn [strconv.digits_loop].
  - intros [= <- <-]. done.
  - repeat case_match; try discriminate; try (eapply IH; eassumption).
    apply IH.
    match goal with
    | H : (_ <? _) || (maxVal <? ?n1) = false |- _ =>
      apply orb_false_iff in H as [_ Hle%Z.ltb_ge];
      pose proof (uint64_range (uint64 (n * uint64 base) + z))
    end.
    lia.
Qed.

Section DigitLoop.
Variables (fn s0 : string) (base bits : Z) (base0 : bool) (cutoff maxVal : Z).
Hypothesis Hbase : 2 <= base <= 36.
Hypothesis Hbits : 1 <= bits <= 64.
Hypothesis HmaxVal : maxVal = 2 ^ bits - 1.
Hypothesis Hcutoff : cutoff = maxUint64 / uint64 base + 1.

Local Abbreviation loop := (strconv.digits_loop fn s0 base base0 cutoff maxVal).

Lemma maxVal_bounds : 0 <= maxVal <= maxUint64.
Proof.
  rewrite HmaxVal. unfold maxUint64.
  assert (2 ^ bits <= 2 ^ 64) by (apply Z.pow_le_mono_r; lia).
  assert (0 < 2 ^ bits) by (apply Z.pow_pos_nonneg; lia). lia.
Qed.

(** On a text of digits without underscores the loop computes the reading
    of the text in the base, and checks it against the bit size. *)
Lemma digits_loop_reading s : forall u n,
  no_underscore s = true ->
  0 <= n <= maxVal ->
  match reading_from base n s with
  | Some v =>
    if v <=? maxVal then loop s u n = inr (v, u)
    else loop s u n = inl (maxVal, Some (strconv.rangeError fn s0))
  | None =>
    loop s u n = inl (0, Some (strconv.syntaxError fn s0))
    \/ loop s u n = inl (maxVal, Some (strconv.rangeError fn s0))
  end.
Proof.
  pose proof maxVal_bounds as Hmax.
  assert (Hub : uint64 base = base) by (apply uint64_small; lia).
  assert (Hbb : byte base = base) by (apply byte_small; lia).
  assert (Hcut : forall n, cutoff <= n -> maxUint64 < n * base).
  { intros n Hn. rewrite Hcutoff, Hub in Hn.
    pose proof (Z.mul_succ_div_gt maxUint64 base ltac:(lia)). nia. }
  assert (Hfit : forall n, 0 <= n < cutoff -> 0 <= n * base <= maxUint64).
  { intros n Hn. rewrite Hcutoff, Hub in Hn.
    pose proof (Z.mul_div_le maxUint64 base ltac:(lia)). nia. }
  induction s as [| c s IH]; intros u n Hnu Hn;
    cbn [strconv.digits_loop reading_from].
  - destruct (Z.leb_spec n maxVal); [done | lia].
  - cbn [no_underscore] in Hnu. apply andb_true_iff in Hnu as [Hc Hnu].
    rewrite underscore_test. apply negb_true_iff in Hc. rewrite Hc. cbn [andb].
    rewrite digit_is_digit_value.
    destruct (digit_value c) as [d |] eqn:Hd; [| by left].
    pose proof (digit_value_bounds _ _ Hd) as Hdb.
    rewrite Hbb.
    destruct (Z.ltb_spec d base) as [Hlt | Hge];
      destruct (Z.leb_spec base d); try lia; [| by left].
    assert (Hmono : forall v,
      reading_from base (n * base + d) s = Some v -> n * base + d <= v).
    { intros v. apply reading_from_ge; nia. }
    destruct (Z.leb_spec cutoff n) as [Hover | Hunder].
    { (* n * base overflows 64 bits *)
      specialize (Hcut n Hover).
      destruct (reading_from base (n * base + d) s) as [v |]; [| by right].
      specialize (Hmono v eq_refl).
      destruct (Z.leb_spec v maxVal); [lia | done]. }
    specialize (Hfit n ltac:(lia)).
    rewrite Hub. rewrite (uint64_small (n * base)) by (unfold maxUint64 in *; lia).
    destruct (Z_lt_le_dec (n * base + d) (2 ^ 64)) as [Hsmall | Hwrap].
    + rewrite (uint64_small (n * base + d)) by lia.
      destruct (Z.ltb_spec (n * base + d) (n * base)); [lia |].
      destruct (Z.ltb_spec maxVal (n * base + d)) as [Hbig | Hok]; cbn [orb].
      * destruct (reading_from base (n * base + d) s) as [v |]; [| by right].
        specialize (Hmono v eq_refl).
        destruct (Z.leb_spec v maxVal); [lia | done].
      * apply IH; [done | lia].
    + assert (Hw : uint64 (n * base + d) = n * base + d - 2 ^ 64).
      { unfold uint64, wrap_unsigned.
        rewrite <- (Z.mod_add _ (-1) (2 ^ 64)) by lia.
        apply Z.mod_small. unfold maxUint64 in *. lia. }
      rewrite Hw.
      destruct (Z.ltb_spec (n * base + d - 2 ^ 64) (n * base)); [| lia].
      cbn [orb].
      destruct (reading_from base (n * base + d) s) as [v |]; [| by right].
      specialize (Hmono v eq_refl). unfold maxUint64 in *.
      destruct (Z.leb_spec v maxVal); [lia | done].
Qed.

End DigitLoop.

(** ** ParseUint *)

Lemma ParseUint_digits `{Platform} (s : string) (bits : Z) :
  bits = 32 \/ bits = 64 ->
  s <> EmptyString ->
  exists base ds,
    radix_of s = (base, ds)
    /\ 2 <= base <= 36
    /\ (no_underscore s = true -> no_underscore ds = true)
    /\ strconv.ParseUint s 0 bits =
       match strconv.digits_loop "ParseUint" s base true
               (maxUint64 / uint64 base + 1) (2 ^ bits - 1) ds false 0 with
       | inl early => early
       | inr (n, underscores) =>
         if underscores && negb (strconv.underscoreOK s)
         then (0, Some (strconv.syntaxError "ParseUint" s))
         else (n, nil)
       end.
Proof.
  intros Hbits Hs. destruct s as [| c0 s1]; [done |].
  unfold strconv.ParseUint.
  cbn [String.eqb index radix_of].
  change ((2 <=? 0) && (0 <=? 36)) with false. change (0 =? 0) with true. cbn match.
  rewrite zero_test.
  assert (Hw : (if bits =? 0 then Some strconv.IntSize
          else if (bits <? 0) || (64 <? bits) then None else Some bits) = Some bits).
  { destruct Hbits as [-> | ->]; reflexivity. }
  assert (Hm : uint64 (uint64 (Z.shiftl 1 bits) - 1) = 2 ^ bits - 1).
  { destruct Hbits as [-> | ->]; reflexivity. }
  rewrite Hw.
  assert (Hunder : forall a t, no_underscore (String a t) = true ->
                               no_underscore t = true).
  { intros a t. cbn [no_underscore]. intros [_ ?]%andb_true_iff. done. }
  destruct (Ascii.eqb c0 "0").
  2:{ exists 10, (String c0 s1). rewrite Hm.
      split; [done |]. split; [lia |]. split; done. }
  destruct s1 as [| p [| c r]].
  - exists 8, EmptyString. rewrite <- Hm.
    split; [done |]. split; [lia |]. split; done.
  - exists 8, (String p EmptyString). rewrite <- Hm.
    change (3 <=? len (String c0 (String p EmptyString))) with false. cbn [andb slice_from].
    split; [done |]. split; [lia |]. split; [eauto | done].
  - assert (Hlen : (3 <=? len (String c0 (String p (String c r)))) = true).
    { rewrite !len_cons. pose proof (len_nonneg r). apply Z.leb_le. lia. }
    rewrite Hlen. cbn [andb index slice_from].
    rewrite prefix_b_test, prefix_o_test, prefix_x_test, <- Hm.
    destruct (is_char p ["b"; "B"]%char);
      [exists 2, (String c r); split; [done |]; split; [lia |];
       split; [eauto | done] |].
    destruct (is_char p ["o"; "O"]%char);
      [exists 8, (String c r); split; [done |]; split; [lia |];
       split; [eauto | done] |].
    destruct (is_char p ["x"; "X"]%char);
      [exists 16, (String c r); split; [done |]; split; [lia |];
       split; [eauto | done] |].
    exists 8, (String p (String c r)); split; [done |]; split; [lia |];
      split; [eauto | done].
Qed.

(** The value [ParseUint] returns is within the bit size; with an error it
    is 0 (syntax) or the largest value of the bit size (range). *)
Lemma ParseUint_result `{Platform} (s : string) (bits : Z) :
  bits = 32 \/ bits = 64 ->
  0 <= (strconv.ParseUint s 0 bits).1 <= 2 ^ bits - 1
  /\ ((strconv.ParseUint s 0 bits).2 = nil
      \/ strconv.ParseUint s 0 bits = (0, Some (strconv.syntaxError "ParseUint" s))
      \/ strconv.ParseUint s 0 bits
         = (2 ^ bits - 1, Some (strconv.rangeError "ParseUint" s))).
Proof.
  intros Hbits.
  assert (Hpos : 0 <= 2 ^ bits - 1) by (destruct Hbits as [-> | ->]; done).
  destruct (decide (s = EmptyString)) as [-> | Hs].
  { split; [done | right; left; done]. }
  destruct (ParseUint_digits s bits Hbits Hs) as (base & ds & _ & Hbase & _ & ->).
  assert (Hb : 1 <= bits <= 64) by lia.
  pose proof (digits_loop_early "ParseUint" s base true
                (maxUint64 / uint64 base + 1) (2 ^ bits - 1) ds false 0) as Hearly.
  pose proof (digits_loop_done "ParseUint" s base true
                (maxUint64 / uint64 base + 1) (2 ^ bits - 1) ds false 0) as Hdone.
  destruct (strconv.digits_loop _ _ _ _ _ _ _ _ _) as [r | [n u]].
  - destruct (Hearly r eq_refl) as [-> | ->]; cbn [fst snd]; split; auto; lia.
  - specialize (Hdone n u ltac:(lia) eq_refl).
    destruct (u && negb (strconv.underscoreOK s)); cbn [fst snd]; split; auto; lia.
Qed.


(** ** ParseInt *)

Lemma int64_magnitude (un : Z) : 0 <= un < 2 ^ 63 -> int64 un = un.
Proof.
  intros Hun. unfold int64.
  assert (0 < 2 ^ 63) by done.
  apply wrap_signed_small; [lia | change (64 - 1) with 63; lia].
Qed.

Lemma int64_neg_magnitude (un : Z) :
  0 <= un <= 2 ^ 63 -> int64 (- int64 un) = - un.
Proof.
  intros Hun. destruct (decide (un = 2 ^ 63)) as [-> | Hne]; [done |].
  rewrite (int64_magnitude un) by lia. unfold int64.
  assert (0 < 2 ^ 63) by done.
  apply wrap_signed_small; [lia | change (64 - 1) with 63; lia].
Qed.

(** [ParseInt] on a non-empty text: the sign is split off, the magnitude is
    parsed by [ParseUint] at 64 bits and checked against the bit size. *)
Lemma ParseInt_sign `{Platform} (s : string) (bits : Z) :
  bits = 32 \/ bits = 64 ->
  s <> EmptyString ->
  strconv.ParseInt s 0 bits =
  let '(neg, m) := sign_of s in
  let '(un, err) := strconv.ParseUint m 0 64 in
  if not_nil_and err (fun e => negb (is_ErrRange (Err e))) then
    (0, with_func_num err "ParseInt" s)
  else if negb neg && (2 ^ (bits - 1) <=? un) then
    (2 ^ (bits - 1) - 1, Some (strconv.rangeError "ParseInt" s))
  else if neg && (2 ^ (bits - 1) <? un) then
    (- 2 ^ (bits - 1), Some (strconv.rangeError "ParseInt" s))
  else (if neg then int64 (- int64 un) else int64 un, nil).
Proof.
  intros Hbits Hs. destruct s as [| c r]; [done |].
  unfold strconv.ParseInt, sign_of. cbn [String.eqb index slice_from].
  rewrite plus_test, minus_test.
  assert (Hw : (if bits =? 0 then strconv.IntSize else bits) = bits)
    by (destruct Hbits as [-> | ->]; done).
  rewrite Hw.
  assert (Hc : uint64 (Z.shiftl 1 (bits - 1)) = 2 ^ (bits - 1))
    by (destruct Hbits as [-> | ->]; done).
  assert (Hmax : int64 (2 ^ (bits - 1) - 1) = 2 ^ (bits - 1) - 1)
    by (destruct Hbits as [-> | ->]; done).
  assert (Hmin : int64 (- int64 (2 ^ (bits - 1))) = - 2 ^ (bits - 1))
    by (destruct Hbits as [-> | ->]; done).
  rewrite Hc, Hmax, Hmin.
  destruct (Ascii.eqb c "+"); [| destruct (Ascii.eqb c "-")];
    cbv beta iota; destruct (strconv.ParseUint _ 0 64) as [un err]; reflexivity.
Qed.

(** The value [ParseInt] returns is within the bit size; with an error it
    is 0 (syntax) or the nearest bound of the bit size (range). *)
Lemma ParseInt_result `{Platform} (s : string) (bits : Z) :
  bits = 32 \/ bits = 64 ->
  - 2 ^ (bits - 1) <= (strconv.ParseInt s 0 bits).1 <= 2 ^ (bits - 1) - 1
  /\ ((strconv.ParseInt s 0 bits).2 = nil
      \/ strconv.ParseInt s 0 bits = (0, Some (strconv.syntaxError "ParseInt" s))
      \/ strconv.ParseInt s 0 bits
         = (2 ^ (bits - 1) - 1, Some (strconv.rangeError "ParseInt" s))
      \/ strconv.ParseInt s 0 bits
         = (- 2 ^ (bits - 1), Some (strconv.rangeError "ParseInt" s))).
Proof.
  intros Hbits.
  assert (Hp : 0 < 2 ^ (bits - 1) <= 2 ^ 63).
  { destruct Hbits as [-> | ->]; done. }
  destruct (decide (s = EmptyString)) as [-> | Hs].
  { split; [cbn [fst strconv.ParseInt String.eqb]; lia | right; left; done]. }
  rewrite (ParseInt_sign s bits Hbits Hs).
  destruct (sign_of s) as [neg m].
  destruct (ParseUint_result m 64 ltac:(auto)) as [Hun Herr].
  destruct (strconv.ParseUint m 0 64) as [un err]. cbn [fst snd] in Hun, Herr.
  destruct Herr as [-> | [[= -> ->] | [= -> ->]]]; cbn [not_nil_and nil].
  - destruct neg; cbn [negb andb].
    + destruct (Z.ltb_spec (2 ^ (bits - 1)) un); cbn [fst snd].
      * split; [lia | auto].
      * rewrite int64_neg_magnitude by lia. split; [lia | auto].
    + destruct (Z.leb_spec (2 ^ (bits - 1)) un); cbn [fst snd].
      * split; [lia | auto].
      * rewrite int64_magnitude by lia. split; [lia | auto].
  - cbn. split; [lia | right; left; done].
  - cbn [Err strconv.rangeError is_ErrRange negb].
    destruct (Z.leb_spec (2 ^ (bits - 1)) (2 ^ 64 - 1));
      [| exfalso; lia].
    destruct neg; cbn [negb andb fst snd].
    + destruct (Z.ltb_spec (2 ^ (bits - 1)) (2 ^ 64 - 1)); [| exfalso; lia].
      cbn [fst snd]. split; [lia | auto].
    + split; [lia | auto].
Qed.


(** When [ParseUint] fails on the magnitude, [ParseInt] fails. *)
Ltac magnitude_error Hu neg bits :=
  destruct Hu as [-> | ->];
  cbn [not_nil_and Err strconv.syntaxError strconv.rangeError is_ErrRange
       negb with_func_num snd]; [eauto |];
  destruct neg; cbn [negb andb];
  [ destruct (Z.ltb_spec (2 ^ (bits - 1)) (2 ^ 64 - 1)); [cbn; eauto | lia]
  | destruct (Z.leb_spec (2 ^ (bits - 1)) (2 ^ 64 - 1)); [cbn; eauto | lia] ].


(** ** The width of [int] *)

Lemma intsize_cases `{Platform} :
  (rev2.intsize = 32 \/ rev2.intsize = 64)
  /\ (rev2.uintsize = 32 \/ rev2.uintsize = 64)
  /\ (secureenv.intsize = 32 \/ secureenv.intsize = 64)
  /\ (secureenv.uintsize = 32 \/ secureenv.uintsize = 64).
Proof.
  unfold rev2.intsize, rev2.uintsize, secureenv.intsize, secureenv.uintsize.
  destruct host; cbn; auto.
Qed.

(** The conversion to the target type does not change a parsed integer. *)
Lemma signed_conversion `{Platform} (s : string) (bits : Z) :
  bits = 32 \/ bits = 64 ->
  wrap_signed bits (strconv.ParseInt s 0 bits).1 = (strconv.ParseInt s 0 bits).1.
Proof.
  intros Hbits. destruct (ParseInt_result s bits Hbits) as [Hr _].
  apply wrap_signed_small; lia.
Qed.

Lemma unsigned_conversion `{Platform} (s : string) (bits : Z) :
  bits = 32 \/ bits = 64 ->
  wrap_unsigned bits (strconv.ParseUint s 0 bits).1 = (strconv.ParseUint s 0 bits).1.
Proof.
  intros Hbits. destruct (ParseUint_result s bits Hbits) as [Hr _].
  apply wrap_unsigned_small; lia.
Qed.

(** ** Assigning *)

Lemma assign_result_assigns {T V} (f : pointer -> string -> M T error)
    (parse : string -> V * error) (conv conv' : V -> T) :
  (forall output key w, f output key w = assign_result parse conv' output key w) ->
  (forall s, conv' (parse s).1 = conv (parse s).1) ->
  assigns f parse conv.
Proof.
  intros Hf Hconv key w. split; [| split].
  - intros Habsent output. rewrite Hf. unfold assign_result. by rewrite Habsent.
  - intros s v Hs Hp. rewrite Hf. unfold assign_result.
    rewrite Hs, Hconv, Hp. done.
  - intros s v e Hs Hp output. rewrite Hf. unfold assign_result.
    rewrite Hs, Hp. done.
Qed.

(** C2: for every assigner of the final revision ([String], [Bool],
    [Float64], [Float32], [Int64], [Int32], [Int], [Uint64], [Uint32],
    [Uint]), every key and every starting content of the output cell: if
    the key is absent the world, output cell included, is left as it was and
    no error is returned; if the key is present and its value parses, the
    parsed value is written to the output cell (for [Float32] after the
    conversion [float32(val)]; for the 32-bit and native integers the
    conversion changes nothing) and no error is returned; if parsing fails,
    the output cell is left as it was and the parser's error is returned. *)
Theorem assign_contract `{Platform} :
  assigns_string secureenv.String
  /\ assigns secureenv.Bool strconv.ParseBool id
  /\ assigns secureenv.Float64 (fun s => ParseFloat s 64) id
  /\ assigns secureenv.Float32 (fun s => ParseFloat s 32) to_float32
  /\ assigns secureenv.Int64 (fun s => strconv.ParseInt s 0 64) id
  /\ assigns secureenv.Int32 (fun s => strconv.ParseInt s 0 32) id
  /\ assigns secureenv.Int (fun s => strconv.ParseInt s 0 secureenv.intsize) id
  /\ assigns secureenv.Uint64 (fun s => strconv.ParseUint s 0 64) id
  /\ assigns secureenv.Uint32 (fun s => strconv.ParseUint s 0 32) id
  /\ assigns secureenv.Uint (fun s => strconv.ParseUint s 0 secureenv.uintsize) id.
Proof.
  destruct intsize_cases as (_ & _ & Hi & Hu).
  each_function.
  - intros key w. split.
    + intros Habsent output. rewrite String_run. unfold assign_string_result.
      by rewrite Habsent.
    + intros s Hs. rewrite String_run. unfold assign_string_result.
      by rewrite Hs.
  - eapply assign_result_assigns; [apply Bool_run | done].
  - eapply assign_result_assigns; [apply Float64_run | done].
  - eapply assign_result_assigns; [apply Float32_run | done].
  - eapply assign_result_assigns; [apply Int64_run | done].
  - eapply assign_result_assigns; [apply Int32_run |].
    intros s. apply (signed_conversion s 32). auto.
  - eapply assign_result_assigns; [apply Int_run |].
    intros s. by apply signed_conversion.
  - eapply assign_result_assigns; [apply Uint64_run | done].
  - eapply assign_result_assigns; [apply Uint32_run |].
    intros s. apply (unsigned_conversion s 32). auto.
  - eapply assign_result_assigns; [apply Uint_run |].
    intros s. by apply unsigned_conversion.
Qed.

(** ** Fetching a value that does not parse *)




(** ** Reading an integer text *)





Lemma decimal_digit_facts (c : ascii) :
  (48 <=? code c) && (code c <=? 57) = true ->
  Ascii.eqb c "+" = false /\ Ascii.eqb c "-" = false
  /\ digit_value c = Some (code c - 48) /\ code c - 48 < 10.
Proof.
  destruct c as [[] [] [] [] [] [] [] []]; vm_compute; intros;
    try discriminate; repeat split.
Qed.

Lemma decimal_digits_reading (s : string) :
  decimal_digits s = true -> forall acc, exists n, reading_from 10 acc s = Some n.
Proof.
  induction s as [| c s IH]; intros Hd acc; cbn [reading_from]; [eauto |].
  cbn [decimal_digits] in Hd. apply andb_true_iff in Hd as [Hc Hd].
  destruct (decimal_digit_facts c Hc) as (_ & _ & -> & Hlt).
  destruct (Z.ltb_spec (code c - 48) 10); [| lia]. by apply IH.
Qed.


Lemma assign_result_reads (parse : string -> Z * error) (conv : Z -> Z)
    (key s : string) (w : world Z) (text : option Z) :
  environ w !! key = Some s ->
  conv (parse s).1 = (parse s).1 ->
  match text with
  | Some v => parse s = (v, nil)
  | None => exists e, (parse s).2 = Some e
  end ->
  reads (assign_result parse conv addr key w) text key w.
Proof.
  intros Hs Hconv Htext. unfold reads, assign_result. rewrite Hs, Hconv.
  destruct text as [v |].
  - rewrite Htext. done.
  - destruct Htext as [e ->]. eauto.
Qed.


(** ** The claims on concrete worlds *)

(** C1 on FLAG=maybe: [Bool] returns the syntax error and FLAG is gone. *)
Lemma key_removed_on_every_exit_witness :
  environ (world_of [("FLAG", "maybe")] true) !! "FLAG" = Some "maybe"
  /\ environ (secureenv.Bool addr "FLAG" (world_of [("FLAG", "maybe")] true)).2
       !! "FLAG" = None
  /\ environ (secureenv.Bool addr "FLAG" (world_of [("FLAG", "maybe")] true)).2
     = delete "FLAG" (environ (world_of [("FLAG", "maybe")] true)).
Proof.
  assert (Hpresent :
    environ (world_of [("FLAG", "maybe")] true) !! "FLAG" = Some "maybe")
    by (vm_compute; reflexivity).
  split; [exact Hpresent |].
  destruct (@key_removed_on_every_exit host64 "FLAG" addr) as (_ & _ & Hfinal).
  destruct Hfinal as (_ & HBool & _).
  exact (HBool _ _ Hpresent).
Defined.

(** C2 on PORT=8080: [Int64] writes 8080 over the 5 in the cell. *)
Lemma assign_contract_witness :
  environ (world_of [("PORT", "8080")] 5) !! "PORT" = Some "8080"
  /\ @strconv.ParseInt host64 "8080" 0 64 = (8080, nil)
  /\ (@secureenv.Int64 host64 addr "PORT" (world_of [("PORT", "8080")] 5)).1
     = Returned nil
  /\ cell (@secureenv.Int64 host64 addr "PORT" (world_of [("PORT", "8080")] 5)).2
     = 8080.
Proof.
  assert (Hpresent :
    environ (world_of [("PORT", "8080")] 5) !! "PORT" = Some "8080")
    by (vm_compute; reflexivity).
  assert (Hparse : @strconv.ParseInt host64 "8080" 0 64 = (8080, nil))
    by (vm_compute; reflexivity).
  split; [exact Hpresent |]. split; [exact Hparse |].
  destruct (@assign_contract host64) as (_ & _ & _ & _ & HInt64 & _).
  destruct (HInt64 "PORT" (world_of [("PORT", "8080")] 5)) as (_ & Hok & _).
  exact (Hok "8080" 8080 Hpresent Hparse).
Defined.

(** C3 on an environment without DEBUG. *)
Lemma fetch_absent_witness :
  environ (world_of [("HOME", "/root")] tt) !! "DEBUG" = None
  /\ rev2.GetBool "DEBUG" (world_of [("HOME", "/root")] tt)
     = (Returned (false, false, nil), world_of [("HOME", "/root")] tt)
  /\ @rev2.GetInt host64 unit "DEBUG" (world_of [("HOME", "/root")] tt)
     = (Returned (0, false, nil), world_of [("HOME", "/root")] tt).
Proof.
  assert (Habsent :
    environ (world_of [("HOME", "/root")] tt) !! "DEBUG" = None)
    by (vm_compute; reflexivity).
  split; [exact Habsent |].
  destruct (@fetch_absent host64 unit "DEBUG" _ Habsent)
    as (_ & HBool & _ & _ & _ & _ & HInt & _).
  exact (conj HBool HInt).
Defined.



(** C5 on FLAG=true. *)
Lemma boolean_grammar_witness :
  environ (world_of [("FLAG", "true")] false) !! "FLAG" = Some "true"
  /\ In "true" truthy_tokens
  /\ rev2.GetBool "FLAG" (world_of [("FLAG", "true")] false)
     = (Returned (true, true, nil),
        consumed "FLAG" (world_of [("FLAG", "true")] false))
  /\ secureenv.Bool addr "FLAG" (world_of [("FLAG", "true")] false)
     = (Returned nil,
        written true (consumed "FLAG" (world_of [("FLAG", "true")] false))).
Proof.
  assert (Hpresent :
    environ (world_of [("FLAG", "true")] false) !! "FLAG" = Some "true")
    by (vm_compute; reflexivity).
  assert (Htoken : In "true" truthy_tokens) by (cbn; tauto).
  split; [exact Hpresent |]. split; [exact Htoken |].
  destruct (boolean_grammar "FLAG" "true" _ Hpresent) as (_ & Htruthy & _).
  destruct (Htruthy Htoken) as (HGet & _ & HBool).
  exact (conj HGet HBool).
Defined.



(** C8 on TOKEN=abc next to HOME=/root: HOME keeps its value. *)
Lemma only_the_key_is_removed_witness :
  "HOME" <> "TOKEN"
  /\ environ (secureenv.String addr "TOKEN"
               (world_of [("TOKEN", "abc"); ("HOME", "/root")] EmptyString)).2 !! "HOME"
     = environ (world_of [("TOKEN", "abc"); ("HOME", "/root")] EmptyString) !! "HOME".
Proof.
  assert (Hne : "HOME" <> "TOKEN") by discriminate.
  split; [exact Hne |].
  destruct (@only_the_key_is_removed host64 "TOKEN" addr) as (_ & _ & _ & Hfinal).
  destruct Hfinal as (HString & _).
  destruct (HString (world_of [("TOKEN", "abc"); ("HOME", "/root")] EmptyString))
    as (Hother & _).
  exact (Hother "HOME" Hne).
Defined.

(** C10 on TOKEN=abc. *)
Lemma first_revision_Get_witness :
  environ (world_of [("TOKEN", "abc")] tt) !! "TOKEN" = Some "abc"
  /\ rev1.Get "TOKEN" "none" (world_of [("TOKEN", "abc")] tt)
     = (Returned "abc",
        World (delete "TOKEN" (environ (world_of [("TOKEN", "abc")] tt)))
          ([] ++ ["TOKEN"])%list tt)
  /\ rev1.Get "HOME" "none" (world_of [("TOKEN", "abc")] tt)
     = (Returned "none", world_of [("TOKEN", "abc")] tt).
Proof.
  assert (Hpresent :
    environ (world_of [("TOKEN", "abc")] tt) !! "TOKEN" = Some "abc")
    by (vm_compute; reflexivity).
  assert (Habsent : environ (world_of [("TOKEN", "abc")] tt) !! "HOME" = None)
    by (vm_compute; reflexivity).
  split; [exact Hpresent |].
  destruct (first_revision_Get "TOKEN" "none" (world_of [("TOKEN", "abc")] tt))
    as (_ & Hsome & _).
  destruct (first_revision_Get "HOME" "none" (world_of [("TOKEN", "abc")] tt))
    as (Hnone & _).
  exact (conj (proj1 (Hsome "abc" Hpresent)) (Hnone Habsent)).
Defined.

(** * Further properties of the package *)

(** ** Nil output pointers *)

Lemma assign_result_panics {T V} (f : pointer -> string -> M T error)
    (parse : string -> V * error) (conv : V -> T) :
  (forall output key w, f output key w = assign_result parse conv output key w) ->
  panics_on_nil_write f parse.
Proof.
  intros Hf key w. rewrite !Hf. unfold assign_result.
  destruct (environ w !! key) as [s |].
  - destruct (parse s).2 as [e |] eqn:He; cbn [fst snd].
    + split; [| done]. split; [done |].
      intros (s' & [= <-] & Hs'). unfold nil in Hs'. congruence.
    + split; [split; [eauto | done] | done].
  - split; [split; [done | intros (s' & Hs' & _); done] | done].
Qed.

(** X1: an assigner of either typed revision panics exactly when it is
    called with a nil output pointer on a key that is present with a value
    that parses (for [String]: on any present key), which is when it
    dereferences the pointer; it never panics with a valid pointer, and an
    absent key or a parse error is reported normally even with a nil
    pointer.  The panicking call leaves the same environment as the call
    with a valid pointer: the key is removed all the same. *)
Theorem nil_pointer_panics `{Platform} :
  (string_panics_on_nil_write secureenv.String
   /\ panics_on_nil_write secureenv.Bool strconv.ParseBool
   /\ panics_on_nil_write secureenv.Float64 (fun s => ParseFloat s 64)
   /\ panics_on_nil_write secureenv.Float32 (fun s => ParseFloat s 32)
   /\ panics_on_nil_write secureenv.Int64 (fun s => strconv.ParseInt s 0 64)
   /\ panics_on_nil_write secureenv.Int32 (fun s => strconv.ParseInt s 0 32)
   /\ panics_on_nil_write secureenv.Int (fun s => strconv.ParseInt s 0 secureenv.intsize)
   /\ panics_on_nil_write secureenv.Uint64 (fun s => strconv.ParseUint s 0 64)
   /\ panics_on_nil_write secureenv.Uint32 (fun s => strconv.ParseUint s 0 32)
   /\ panics_on_nil_write secureenv.Uint (fun s => strconv.ParseUint s 0 secureenv.uintsize))
  /\ (string_panics_on_nil_write rev2.String
      /\ panics_on_nil_write rev2.Bool strconv.ParseBool
      /\ panics_on_nil_write rev2.Float64 (fun s => ParseFloat s 64)
      /\ panics_on_nil_write rev2.Float32 (fun s => ParseFloat s 32)
      /\ panics_on_nil_write rev2.Int64 (fun s => strconv.ParseInt s 0 64)
      /\ panics_on_nil_write rev2.Int32 (fun s => strconv.ParseInt s 0 32)
      /\ panics_on_nil_write rev2.Int (fun s => strconv.ParseInt s 0 rev2.intsize)
      /\ panics_on_nil_write rev2.Uint64 (fun s => strconv.ParseUint s 0 64)
      /\ panics_on_nil_write rev2.Uint32 (fun s => strconv.ParseUint s 0 32)
      /\ panics_on_nil_write rev2.Uint (fun s => strconv.ParseUint s 0 rev2.uintsize)).
Proof.
  assert (HString : forall f,
    (forall output key w, f output key w = assign_string_result output key w) ->
    string_panics_on_nil_write f).
  { intros f Hf key w. rewrite !Hf. unfold assign_string_result.
    destruct (environ w !! key) as [s |]; cbn [fst snd].
    - split; [split; [eauto | done] | done].
    - split; [split; [done | by intros [? ?]] | done]. }
  each_function;
    first [ apply HString; intros; closed; reflexivity
          | eapply assign_result_panics; intros; closed; reflexivity ].
Qed.

(** ** Other entries do not matter *)

Lemma fetch_result_local {T R V} (zero : R) (parse : string -> V * error)
    (conv : V -> R) (key : string) (w w' : world T) :
  environ w !! key = environ w' !! key ->
  cell w = cell w' ->
  (fetch_result zero parse conv key w).1 = (fetch_result zero parse conv key w').1
  /\ cell (fetch_result zero parse conv key w).2
     = cell (fetch_result zero parse conv key w').2.
Proof.
  intros He Hc. unfold fetch_result. rewrite <- He.
  destruct (environ w !! key); done.
Qed.

Lemma assign_result_local {T V} (parse : string -> V * error) (conv : V -> T)
    (output : pointer) (key : string) (w w' : world T) :
  environ w !! key = environ w' !! key ->
  cell w = cell w' ->
  (assign_result parse conv output key w).1
  = (assign_result parse conv output key w').1
  /\ cell (assign_result parse conv output key w).2
     = cell (assign_result parse conv output key w').2.
Proof.
  intros He Hc. unfold assign_result. rewrite <- He.
  destruct (environ w !! key) as [s |]; [| done].
  destruct (parse s).2; [done |]. destruct output; done.
Qed.

Lemma assign_string_result_local (output : pointer) (key : string)
    (w w' : world string) :
  environ w !! key = environ w' !! key ->
  cell w = cell w' ->
  (assign_string_result output key w).1 = (assign_string_result output key w').1
  /\ cell (assign_string_result output key w).2
     = cell (assign_string_result output key w').2.
Proof.
  intros He Hc. unfold assign_string_result. rewrite <- He.
  destruct (environ w !! key) as [s |]; [| done]. destruct output; done.
Qed.

(** X3: for every function of the three revisions, what a call on a key
    returns (value, presence flag, error, or panic) and what it leaves in
    the output cell is the same in any two worlds that agree on the entry
    of that key and on the output cell: no call reads another environment
    entry, and none depends on what was unset before. *)
Theorem other_entries_do_not_matter `{Platform} (key : string) (output : pointer) :
  (forall (T : Type) (def : string),
     depends_only_on_key (T:=T) key (rev1.Get key def))
  /\ (forall T : Type,
        depends_only_on_key (T:=T) key (rev2.GetString key)
        /\ depends_only_on_key (T:=T) key (rev2.GetBool key)
        /\ depends_only_on_key (T:=T) key (rev2.GetFloat64 key)
        /\ depends_only_on_key (T:=T) key (rev2.GetFloat32 key)
        /\ depends_only_on_key (T:=T) key (rev2.GetInt64 key)
        /\ depends_only_on_key (T:=T) key (rev2.GetInt32 key)
        /\ depends_only_on_key (T:=T) key (rev2.GetInt key)
        /\ depends_only_on_key (T:=T) key (rev2.GetUint64 key)
        /\ depends_only_on_key (T:=T) key (rev2.GetUint32 key)
        /\ depends_only_on_key (T:=T) key (rev2.GetUint key))
  /\ (depends_only_on_key key (rev2.String output key)
      /\ depends_only_on_key key (rev2.Bool output key)
      /\ depends_only_on_key key (rev2.Float64 output key)
      /\ depends_only_on_key key (rev2.Float32 output key)
      /\ depends_only_on_key key (rev2.Int64 output key)
      /\ depends_only_on_key key (rev2.Int32 output key)
      /\ depends_only_on_key key (rev2.Int output key)
      /\ depends_only_on_key key (rev2.Uint64 output key)
      /\ depends_only_on_key key (rev2.Uint32 output key)
      /\ depends_only_on_key key (rev2.Uint output key))
  /\ (depends_only_on_key key (secureenv.String output key)
      /\ depends_only_on_key key (secureenv.Bool output key)
      /\ depends_only_on_key key (secureenv.Float64 output key)
      /\ depends_only_on_key key (secureenv.Float32 output key)
      /\ depends_only_on_key key (secureenv.Int64 output key)
      /\ depends_only_on_key key (secureenv.Int32 output key)
      /\ depends_only_on_key key (secureenv.Int output key)
      /\ depends_only_on_key key (secureenv.Uint64 output key)
      /\ depends_only_on_key key (secureenv.Uint32 output key)
      /\ depends_only_on_key key (secureenv.Uint output key)).
Proof.
  each_function; intros w w' He Hc; closed;
    first [ by apply fetch_result_local
          | by apply assign_result_local
          | by apply assign_string_result_local
          | idtac ].
  - rewrite !rev1_Get_run, <- He. destruct (environ w !! key); done.
  - rewrite !GetString_run, <- He. destruct (environ w !! key); done.
Qed.

(** ** A key can be consumed once, by whichever function *)

Lemma reported_absent_intro `{Platform} {T} (key : string) (w : world T) :
  environ w !! key = None -> reported_absent key w.
Proof.
  intros Habsent. unfold reported_absent.
  split; [done |]. split; [intros def; rewrite rev1_Get_run; by rewrite Habsent |].
  rewrite GetString_run. closed. unfold fetch_result. rewrite Habsent.
  repeat split.
Qed.

(** X9: every function of the package spends its key, as the package
    comment says ("every function in this package can only be called
    once"): in the world a call leaves, whichever function it was, however
    it ended (value, parse error, panic) and whether or not the key was
    present, the key is absent, and a following [Get] or [Get*] fetcher of
    any type on that key returns its default or zero value with present =
    false and no error, and changes nothing. *)
Theorem every_call_spends_the_key `{Platform} (key : string) (output : pointer) :
  (forall (T : Type) (def : string), spends (T:=T) key (rev1.Get key def))
  /\ (forall T : Type,
        spends (T:=T) key (rev2.GetString key)
        /\ spends (T:=T) key (rev2.GetBool key)
        /\ spends (T:=T) key (rev2.GetFloat64 key)
        /\ spends (T:=T) key (rev2.GetFloat32 key)
        /\ spends (T:=T) key (rev2.GetInt64 key)
        /\ spends (T:=T) key (rev2.GetInt32 key)
        /\ spends (T:=T) key (rev2.GetInt key)
        /\ spends (T:=T) key (rev2.GetUint64 key)
        /\ spends (T:=T) key (rev2.GetUint32 key)
        /\ spends (T:=T) key (rev2.GetUint key))
  /\ (spends key (rev2.String output key)
      /\ spends key (rev2.Bool output key)
      /\ spends key (rev2.Float64 output key)
      /\ spends key (rev2.Float32 output key)
      /\ spends key (rev2.Int64 output key)
      /\ spends key (rev2.Int32 output key)
      /\ spends key (rev2.Int output key)
      /\ spends key (rev2.Uint64 output key)
      /\ spends key (rev2.Uint32 output key)
      /\ spends key (rev2.Uint output key))
  /\ (spends key (secureenv.String output key)
      /\ spends key (secureenv.Bool output key)
      /\ spends key (secureenv.Float64 output key)
      /\ spends key (secureenv.Float32 output key)
      /\ spends key (secureenv.Int64 output key)
      /\ spends key (secureenv.Int32 output key)
      /\ spends key (secureenv.Int output key)
      /\ spends key (secureenv.Uint64 output key)
      /\ spends key (secureenv.Uint32 output key)
      /\ spends key (secureenv.Uint output key)).
Proof.
  each_function; intros w; apply reported_absent_intro; closed; use_effect;
    match goal with He : environ _ = env_after _ _ |- _ => rewrite He end;
    apply env_after_lookup.
Qed.

(** ** The first revision against the middle one *)

(** X10: [Get(key, def)] of the first revision, which unsets the key
    before it returns, leaves the same world as [GetString(key)] of the
    middle revision, which defers the unset, and returns the string
    [GetString] returns when that one reports the key present, and [def]
    otherwise. *)
Theorem Get_agrees_with_GetString {T} (key def : string) (w : world T) :
  (rev1.Get key def w).2 = (rev2.GetString key w).2
  /\ exists (v : string) (ok : bool),
      (rev2.GetString key w).1 = Returned (v, ok)
      /\ (rev1.Get key def w).1 = Returned (if ok then v else def)
      /\ (ok = true <-> is_Some (environ w !! key)).
Proof.
  rewrite rev1_Get_run, GetString_run.
  destruct (environ w !! key) as [s |].
  - split; [done |]. exists s, true. repeat split; eauto.
  - split; [done |]. exists EmptyString, false. repeat split; [done |].
    by intros [? ?].
Qed.

(** ** Fetching a present key *)


(** ** The integers returned and written fit their type *)





(** ** A variable set to the empty string *)

Lemma assign_result_error {T V} (parse : string -> V * error) (conv : V -> T)
    (output : pointer) (key s : string) (w : world T) (v : V) (e : NumError) :
  environ w !! key = Some s ->
  parse s = (v, Some e) ->
  assign_result parse conv output key w = (Returned (Some e), consumed key w).
Proof.
  intros Hs Hp. unfold assign_result. by rewrite Hs, Hp.
Qed.

Lemma fetch_result_error {T R V} (zero : R) (parse : string -> V * error)
    (conv : V -> R) (key s : string) (w : world T) (v : V) (e : NumError) :
  environ w !! key = Some s ->
  parse s = (v, Some e) ->
  fetch_result zero parse conv key w
  = (Returned (conv v, true, Some e), consumed key w).
Proof.
  intros Hs Hp. unfold fetch_result. by rewrite Hs, Hp.
Qed.

(** X5: a variable that is set to the empty string is present, not absent:
    [String] overwrites the output cell with the empty string, the boolean
    and integer accessors of both kinds return the syntax error of their
    parser on the empty text (the fetchers with value false or 0 and
    present = true) and leave the output cell as it was, whatever the
    pointer; and the key is removed in every case. *)
Theorem empty_value_is_present `{Platform} (key : string) (output : pointer) :
  (forall (T : Type) (w : world T),
     environ w !! key = Some EmptyString ->
     rev2.GetString key w = (Returned (EmptyString, true), consumed key w)
     /\ rev2.GetBool key w
        = (Returned (false, true,
                     Some (strconv.syntaxError "ParseBool" EmptyString)),
           consumed key w)
     /\ (forall get,
           In get [rev2.GetInt64 (T:=T); rev2.GetInt32 (T:=T); rev2.GetInt (T:=T)] ->
         get key w
         = (Returned (0, true, Some (strconv.syntaxError "ParseInt" EmptyString)),
            consumed key w))
     /\ (forall get,
           In get [rev2.GetUint64 (T:=T); rev2.GetUint32 (T:=T); rev2.GetUint (T:=T)] ->
         get key w
         = (Returned (0, true, Some (strconv.syntaxError "ParseUint" EmptyString)),
            consumed key w)))
  /\ (forall w : world string,
        environ w !! key = Some EmptyString ->
        secureenv.String addr key w
        = (Returned tt, written EmptyString (consumed key w)))
  /\ (forall w : world bool,
        environ w !! key = Some EmptyString ->
        secureenv.Bool output key w
        = (Returned (Some (strconv.syntaxError "ParseBool" EmptyString)),
           consumed key w))
  /\ (forall w : world Z,
        environ w !! key = Some EmptyString ->
        (forall set, In set [secureenv.Int64; secureenv.Int32; secureenv.Int] ->
         set output key w
         = (Returned (Some (strconv.syntaxError "ParseInt" EmptyString)),
            consumed key w))
        /\ (forall set, In set [secureenv.Uint64; secureenv.Uint32; secureenv.Uint] ->
            set output key w
            = (Returned (Some (strconv.syntaxError "ParseUint" EmptyString)),
               consumed key w))).
Proof.
  destruct intsize_cases as (Hi & Hu & _).
  split; [| split; [| split]].
  - intros T w Hs. split; [by rewrite GetString_run, Hs |].
    split; [closed; unfold fetch_result; by rewrite Hs |].
    split; intros get Hget; cbn [In] in Hget;
      repeat (destruct Hget as [<- | Hget]; [closed; unfold fetch_result;
        rewrite Hs, ?(signed_conversion EmptyString rev2.intsize),
          ?(unsigned_conversion EmptyString rev2.uintsize) by done;
        reflexivity |]); done.
  - intros w Hs. rewrite String_run. unfold assign_string_result. by rewrite Hs.
  - intros w Hs. closed. unfold assign_result. by rewrite Hs.
  - intros w Hs. split; intros set Hset; cbn [In] in Hset;
      repeat (destruct Hset as [<- | Hset];
        [closed; unfold assign_result; by rewrite Hs |]); done.
Qed.

(** ** Unsigned accessors take no sign *)

Lemma ParseUint_sign `{Platform} (c : ascii) (r : string) (bits : Z) :
  bits = 32 \/ bits = 64 ->
  c = "+"%char \/ c = "-"%char ->
  strconv.ParseUint (String c r) 0 bits
  = (0, Some (strconv.syntaxError "ParseUint" (String c r))).
Proof.
  intros Hbits Hc.
  destruct (ParseUint_digits (String c r) bits Hbits ltac:(done))
    as (base & ds & Hr & _ & _ & ->).
  destruct Hc as [-> | ->]; cbn in Hr; injection Hr as <- <-; reflexivity.
Qed.

(** X4: a value that starts with a sign, [+] as well as [-], is a syntax
    error for every unsigned accessor ([GetUint64], [GetUint32], [GetUint]
    and the assigners [Uint64], [Uint32], [Uint]): [ParseUint] picks off no
    sign.  The fetchers return 0 with present = true, the assigners leave
    the output cell as it was, and the key is consumed. *)
Theorem unsigned_takes_no_sign `{Platform} (key : string) (c : ascii)
    (r : string) (output : pointer) :
  c = "+"%char \/ c = "-"%char ->
  (forall (T : Type) (w : world T),
     environ w !! key = Some (String c r) ->
     forall get,
       In get [rev2.GetUint64 (T:=T); rev2.GetUint32 (T:=T); rev2.GetUint (T:=T)] ->
       get key w
       = (Returned (0, true, Some (strconv.syntaxError "ParseUint" (String c r))),
          consumed key w))
  /\ (forall w : world Z,
        environ w !! key = Some (String c r) ->
        forall set,
          In set [secureenv.Uint64; secureenv.Uint32; secureenv.Uint] ->
          set output key w
          = (Returned (Some (strconv.syntaxError "ParseUint" (String c r))),
             consumed key w)).
Proof.
  intros Hc. destruct intsize_cases as (_ & Hu & _ & Hu').
  assert (Hparse : forall bits, bits = 32 \/ bits = 64 ->
    strconv.ParseUint (String c r) 0 bits
    = (0, Some (strconv.syntaxError "ParseUint" (String c r))))
    by (intros; by apply ParseUint_sign).
  split.
  - intros T w Hs get Hget. cbn [In] in Hget.
    repeat (destruct Hget as [<- | Hget];
      [closed;
       erewrite fetch_result_error; [| exact Hs | apply Hparse; auto];
       reflexivity |]).
    done.
  - intros w Hs set Hset. cbn [In] in Hset.
    repeat (destruct Hset as [<- | Hset];
      [closed;
       erewrite assign_result_error; [| exact Hs | apply Hparse; auto];
       reflexivity |]).
    done.
Qed.

(** ** The native width *)

Lemma assign_result_conv {T V} (parse : string -> V * error) (conv conv' : V -> T)
    (output : pointer) (key : string) (w : world T) :
  (forall s, conv (parse s).1 = conv' (parse s).1) ->
  assign_result parse conv output key w = assign_result parse conv' output key w.
Proof.
  intros Hconv. unfold assign_result.
  destruct (environ w !! key) as [s |]; [| done]. by rewrite Hconv.
Qed.

Lemma fetch_result_conv {T R V} (zero : R) (parse : string -> V * error)
    (conv conv' : V -> R) (key : string) (w : world T) :
  (forall s, conv (parse s).1 = conv' (parse s).1) ->
  fetch_result zero parse conv key w = fetch_result zero parse conv' key w.
Proof.
  intros Hconv. unfold fetch_result.
  destruct (environ w !! key) as [s |]; [| done]. by rewrite Hconv.
Qed.

(** X11: [Int], [Uint], [GetInt] and [GetUint] are the 64-bit functions on
    a host whose [int] has 8 bytes and the 32-bit functions on a host whose
    [int] has 4 bytes: same returned value, error or panic and same world,
    for every pointer, key and world. *)
Theorem native_width `{Platform} (output : pointer) (key : string) (w : world Z) :
  (host = Arch64 ->
   secureenv.Int output key w = secureenv.Int64 output key w
   /\ secureenv.Uint output key w = secureenv.Uint64 output key w
   /\ rev2.Int output key w = rev2.Int64 output key w
   /\ rev2.Uint output key w = rev2.Uint64 output key w
   /\ rev2.GetInt key w = rev2.GetInt64 key w
   /\ rev2.GetUint key w = rev2.GetUint64 key w)
  /\ (host = Arch32 ->
      secureenv.Int output key w = secureenv.Int32 output key w
      /\ secureenv.Uint output key w = secureenv.Uint32 output key w
      /\ rev2.Int output key w = rev2.Int32 output key w
      /\ rev2.Uint output key w = rev2.Uint32 output key w
      /\ rev2.GetInt key w = rev2.GetInt32 key w
      /\ rev2.GetUint key w = rev2.GetUint32 key w).
Proof.
  split; intros Hhost; closed;
    unfold secureenv.intsize, secureenv.uintsize, rev2.intsize, rev2.uintsize;
    rewrite Hhost; cbn [sizeof_int].
  - change (8 * 8) with 64.
    repeat split;
      first [ apply assign_result_conv | apply fetch_result_conv ]; intros s;
      first [ apply (signed_conversion s 64) | apply (unsigned_conversion s 64) ];
      auto.
  - change (4 * 8) with 32. repeat split.
Qed.

(** ** A wider type accepts what a narrower one accepts *)

Lemma digits_loop_widen (fn s0 : string) (base : Z) (base0 : bool)
    (cutoff small large : Z) (s : string) : forall u n v u',
  small <= large ->
  strconv.digits_loop fn s0 base base0 cutoff small s u n = inr (v, u') ->
  strconv.digits_loop fn s0 base base0 cutoff large s u n = inr (v, u').
Proof.
  induction s as [| c s IH]; intros u n v u' Hle; cbn [strconv.digits_loop];
    [done |].
  destruct ((code c =? code "_") && base0); [by apply IH |].
  destruct (strconv.digit (code c)) as [d |]; [| done].
  destruct (byte base <=? d); [done |].
  destruct (cutoff <=? n); [done |].
  destruct (uint64 (uint64 (n * uint64 base) + d) <? uint64 (n * uint64 base));
    cbn [orb]; [done |].
  destruct (Z.ltb_spec small (uint64 (uint64 (n * uint64 base) + d)));
    [done |].
  destruct (Z.ltb_spec large (uint64 (uint64 (n * uint64 base) + d)));
    [lia | by apply IH].
Qed.

Lemma ParseUint_widen `{Platform} (s : string) :
  (strconv.ParseUint s 0 32).2 = nil ->
  strconv.ParseUint s 0 64 = strconv.ParseUint s 0 32.
Proof.
  destruct (decide (s = EmptyString)) as [-> | Hs]; [done |].
  destruct (ParseUint_digits s 32 ltac:(auto) Hs) as (base & ds & Hr & _ & _ & ->).
  destruct (ParseUint_digits s 64 ltac:(auto) Hs) as (base' & ds' & Hr' & _ & _ & ->).
  rewrite Hr in Hr'. injection Hr' as <- <-.
  pose proof (digits_loop_early "ParseUint" s base true
                (maxUint64 / uint64 base + 1) (2 ^ 32 - 1) ds false 0) as Hearly.
  pose proof (digits_loop_widen "ParseUint" s base true
                (maxUint64 / uint64 base + 1) (2 ^ 32 - 1) (2 ^ 64 - 1) ds false 0)
    as Hwiden.
  destruct (strconv.digits_loop "ParseUint" s base true _ (2 ^ 32 - 1) ds false 0)
    as [r | [n u]].
  - destruct (Hearly r eq_refl) as [-> | ->]; done.
  - intros _. by rewrite (Hwiden n u ltac:(done) eq_refl).
Qed.

Lemma ParseInt_widen `{Platform} (s : string) :
  (strconv.ParseInt s 0 32).2 = nil ->
  strconv.ParseInt s 0 64 = strconv.ParseInt s 0 32.
Proof.
  destruct (decide (s = EmptyString)) as [-> | Hs]; [done |].
  rewrite (ParseInt_sign s 32), (ParseInt_sign s 64) by auto.
  destruct (sign_of s) as [neg m].
  destruct (ParseUint_result m 64 ltac:(auto)) as [Hun Herr].
  destruct (strconv.ParseUint m 0 64) as [un err]. cbn [fst snd] in Hun, Herr.
  assert (Hbig : un = 2 ^ 64 - 1 -> 2 ^ (32 - 1) < un) by (intros ->; done).
  assert (Hp : 2 ^ (32 - 1) < 2 ^ (64 - 1)) by done.
  destruct (not_nil_and err _); [done |].
  destruct neg; cbn [negb andb].
  - destruct (Z.ltb_spec (2 ^ (32 - 1)) un); [done |].
    destruct (Z.ltb_spec (2 ^ (64 - 1)) un); [lia | done].
  - destruct (Z.leb_spec (2 ^ (32 - 1)) un); [done |].
    destruct (Z.leb_spec (2 ^ (64 - 1)) un); [lia | done].
Qed.

Lemma assign_result_widen {T V} (narrow wide : string -> V * error)
    (conv conv' : V -> T) (output : pointer) (key : string) (w : world T) :
  (forall s, (narrow s).2 = nil ->
             (wide s).2 = nil /\ conv' (wide s).1 = conv (narrow s).1) ->
  (assign_result narrow conv output key w).1 = Returned nil ->
  assign_result wide conv' output key w = assign_result narrow conv output key w.
Proof.
  intros Hwide. unfold assign_result.
  destruct (environ w !! key) as [s |]; [| done].
  destruct (narrow s).2 as [e |] eqn:He; [done |].
  destruct (Hwide s He) as [-> ->]. done.
Qed.

(** X12: whenever the 32-bit assigner of a signedness accepts the value of
    a key (it returns no error), the 64-bit assigner and the native-width
    assigner do exactly what it does on the same call (same written value,
    same world); and whenever the native-width assigner accepts, so does the
    64-bit one, identically. *)
Theorem wider_type_accepts `{Platform} (output : pointer) (key : string)
    (w : world Z) :
  ((secureenv.Int32 output key w).1 = Returned nil ->
   secureenv.Int64 output key w = secureenv.Int32 output key w
   /\ secureenv.Int output key w = secureenv.Int32 output key w)
  /\ ((secureenv.Int output key w).1 = Returned nil ->
      secureenv.Int64 output key w = secureenv.Int output key w)
  /\ ((secureenv.Uint32 output key w).1 = Returned nil ->
      secureenv.Uint64 output key w = secureenv.Uint32 output key w
      /\ secureenv.Uint output key w = secureenv.Uint32 output key w)
  /\ ((secureenv.Uint output key w).1 = Returned nil ->
      secureenv.Uint64 output key w = secureenv.Uint output key w).
Proof.
  destruct intsize_cases as (_ & _ & Hi & Hu).
  assert (Hs32 : forall s, int32 (strconv.ParseInt s 0 32).1 = (strconv.ParseInt s 0 32).1)
    by (intros s; apply (signed_conversion s 32); auto).
  assert (Hu32 : forall s, uint32 (strconv.ParseUint s 0 32).1 = (strconv.ParseUint s 0 32).1)
    by (intros s; apply (unsigned_conversion s 32); auto).
  closed. split; [| split; [| split]].
  - intros Hok. split; apply assign_result_widen; try done; intros s He.
    + rewrite ParseInt_widen by done. by rewrite Hs32.
    + destruct Hi as [-> | ->]; [done |]. rewrite ParseInt_widen by done.
      rewrite Hs32.
      split; [done |]. apply wrap_signed_small; [done |].
      destruct (ParseInt_result s 32 ltac:(auto)) as [Hr _].
      change (2 ^ (32 - 1)) with (2 ^ 31) in Hr. change (2 ^ (64 - 1)) with (2 ^ 63).
      lia.
  - intros Hok. apply assign_result_widen; [| done]. intros s He.
    destruct Hi as [Hi | Hi]; rewrite Hi in *.
    + rewrite ParseInt_widen by done. by rewrite (signed_conversion s 32) by auto.
    + by rewrite (signed_conversion s 64) by auto.
  - intros Hok. split; apply assign_result_widen; try done; intros s He.
    + rewrite ParseUint_widen by done. by rewrite Hu32.
    + destruct Hu as [-> | ->]; [done |]. rewrite ParseUint_widen by done.
      rewrite Hu32. split; [done |]. apply wrap_unsigned_small.
      destruct (ParseUint_result s 32 ltac:(auto)) as [Hr _]. lia.
  - intros Hok. apply assign_result_widen; [| done]. intros s He.
    destruct Hu as [Hu | Hu]; rewrite Hu in *.
    + rewrite ParseUint_widen by done. by rewrite (unsigned_conversion s 32) by auto.
    + by rewrite (unsigned_conversion s 64) by auto.
Qed.

(** ** Underscores in integer texts *)

Lemma strip_no_underscore (s : string) :
  no_underscore (strip_underscores s) = true.
Proof.
  induction s as [| c s IH]; [done |]. cbn [strip_underscores].
  destruct (Ascii.eqb c "_") eqn:Hc; [done |]. cbn [no_underscore].
  by rewrite Hc, IH.
Qed.

(** With base 0 the digit loop skips the underscores and remembers that it
    saw one. *)
Lemma digits_loop_skip (fn s0 : string) (base cutoff maxVal : Z) (s : string) :
  forall u n,
    strconv.digits_loop fn s0 base true cutoff maxVal s u n
    = match strconv.digits_loop fn s0 base true cutoff maxVal
              (strip_underscores s) false n with
      | inl r => inl r
      | inr (v, _) => inr (v, u || negb (no_underscore s))
      end.
Proof.
  induction s as [| c s IH]; intros u n.
  - cbn. by rewrite orb_false_r.
  - cbn [strip_underscores no_underscore].
    destruct (Ascii.eqb c "_") eqn:Hc.
    + cbn [strconv.digits_loop]. rewrite underscore_test, Hc. cbn [andb negb].
      rewrite IH, orb_true_r. by destruct (strconv.digits_loop _ _ _ _ _ _ _ _ _) as [r | [v u']].
    + cbn [strconv.digits_loop]. rewrite underscore_test, Hc. cbn [andb negb].
      destruct (strconv.digit (code c)) as [d |]; [| done].
      destruct (byte base <=? d); [done |].
      destruct (cutoff <=? n); [done |].
      destruct ((_ <? _) || (_ <? _)); [done |]. apply IH.
Qed.

Lemma prefix_letter_not_underscore (p : ascii) :
  is_char p ["b"; "B"; "o"; "O"; "x"; "X"]%char = true -> Ascii.eqb p "_" = false.
Proof.
  destruct p as [[] [] [] [] [] [] [] []]; vm_compute; intros; done.
Qed.

(** The prefix that selects the base holds no underscore. *)
Lemma radix_of_underscore (s : string) :
  no_underscore (radix_of s).2 = no_underscore s.
Proof.
  destruct s as [| z r]; [done |]. unfold radix_of.
  destruct (Ascii.eqb z "0") eqn:Hz; [| done].
  apply Ascii.eqb_eq in Hz as ->.
  assert (Hletter : forall p l t,
    is_char p l = true ->
    (forall q, is_char q l = true ->
               is_char q ["b"; "B"; "o"; "O"; "x"; "X"]%char = true) ->
    no_underscore t = no_underscore (String "0" (String p t))).
  { intros p l t Hp Hl. cbn [no_underscore].
    rewrite (prefix_letter_not_underscore p) by auto. done. }
  destruct r as [| p [| c r]]; [done | done |].
  destruct (is_char p ["b"; "B"]%char) eqn:Hb.
  { apply (Hletter p _ _ Hb). intros q. unfold is_char. cbn [existsb].
    intros H. repeat (apply orb_true_iff in H as [H | H]; [by rewrite H, ?orb_true_r |]).
    done. }
  destruct (is_char p ["o"; "O"]%char) eqn:Ho.
  { apply (Hletter p _ _ Ho). intros q. unfold is_char. cbn [existsb].
    intros H. repeat (apply orb_true_iff in H as [H | H]; [by rewrite H, ?orb_true_r |]).
    done. }
  destruct (is_char p ["x"; "X"]%char) eqn:Hx.
  { apply (Hletter p _ _ Hx). intros q. unfold is_char. cbn [existsb].
    intros H. repeat (apply orb_true_iff in H as [H | H]; [by rewrite H, ?orb_true_r |]).
    done. }
  done.
Qed.

(** [ParseUint] with base 0 on any non-empty text: the digits after the
    prefix are read with the underscores skipped, and the text is rejected
    when it holds an underscore that [underscoreOK] does not allow. *)
Lemma ParseUint_strip `{Platform} (s : string) (bits : Z) :
  bits = 32 \/ bits = 64 ->
  s <> EmptyString ->
  exists base ds,
    radix_of s = (base, ds)
    /\ 2 <= base <= 36
    /\ strconv.ParseUint s 0 bits =
       match strconv.digits_loop "ParseUint" s base true
               (maxUint64 / uint64 base + 1) (2 ^ bits - 1)
               (strip_underscores ds) false 0 with
       | inl early => early
       | inr (n, _) =>
         if negb (no_underscore s) && negb (strconv.underscoreOK s)
         then (0, Some (strconv.syntaxError "ParseUint" s))
         else (n, nil)
       end.
Proof.
  intros Hbits Hs.
  destruct (ParseUint_digits s bits Hbits Hs) as (base & ds & Hr & Hbase & _ & ->).
  exists base, ds. split; [done |]. split; [done |].
  rewrite digits_loop_skip. cbn [orb].
  pose proof (radix_of_underscore s) as Hu. rewrite Hr in Hu. cbn [snd] in Hu.
  rewrite Hu.
  by destruct (strconv.digits_loop _ _ _ _ _ _ _ _ _) as [r | [v u']].
Qed.

Lemma decimal_scan_test (c : ascii) :
  ((code "0" <=? code c) && (code c <=? code "9")) = is_decimal c.
Proof. reflexivity. Qed.

Lemma underscore_scan_test :
  ((code "0" <=? code "_") && (code "_" <=? code "9")) = false.
Proof. reflexivity. Qed.

Lemma decimal_not_special (c : ascii) :
  is_decimal c = true ->
  Ascii.eqb c "_" = false /\ Ascii.eqb c "+" = false /\ Ascii.eqb c "-" = false.
Proof.
  destruct c as [[] [] [] [] [] [] [] []]; vm_compute; intros;
    try discriminate; repeat split.
Qed.

(** In a grouped numeral every underscore is allowed, and what is left
    without them is a text of decimal digits. *)
Lemma digit_groups_facts (n : nat) : forall r,
  (String.length r <= n)%nat ->
  digit_groups r = true ->
  strconv.underscoreOK_scan false "0" r = true
  /\ decimal_digits (strip_underscores r) = true.
Proof.
  induction n as [| n IH]; intros r Hlen Hr.
  - destruct r; [done | cbn in Hlen; lia].
  - destruct r as [| c r]; [done |].
    cbn [digit_groups] in Hr.
    cbn [strconv.underscoreOK_scan strip_underscores]. rewrite decimal_scan_test.
    cbn [String.length] in Hlen.
    destruct (is_decimal c) eqn:Hc.
    + destruct (decimal_not_special c Hc) as (-> & _). cbn [orb decimal_digits].
      fold (is_decimal c). rewrite Hc. cbn [andb]. apply IH; [lia | done].
    + destruct (Ascii.eqb c "_") eqn:Hu; [| done].
      apply Ascii.eqb_eq in Hu as ->. cbn [andb orb]. rewrite Z.eqb_refl.
      destruct r as [| d r]; [done |]. apply andb_true_iff in Hr as [Hd Hr].
      cbn [negb Ascii.eqb Bool.eqb strconv.underscoreOK_scan strip_underscores].
      rewrite decimal_scan_test, Hd. cbn [orb].
      destruct (decimal_not_special d Hd) as (-> & _). cbn [decimal_digits].
      fold (is_decimal d). rewrite Hd. cbn [andb]. cbn [String.length] in Hlen.
      apply IH; [lia | done].
Qed.

Lemma grouped_numeral_facts (s : string) :
  grouped_numeral s = true ->
  strconv.underscoreOK s = true
  /\ decimal_numeral (strip_underscores s) = true
  /\ radix_of s = (10, s)
  /\ sign_of s = (false, s).
Proof.
  destruct s as [| c r]; [done |]. unfold grouped_numeral.
  intros [[Hc Hz]%andb_true_iff Hr]%andb_true_iff. apply negb_true_iff in Hz.
  destruct (decimal_not_special c Hc) as (Hu & Hplus & Hminus).
  destruct (digit_groups_facts _ r (le_n _) Hr) as [Hscan Hdec].
  split; [| split; [| split]].
  - unfold strconv.underscoreOK. cbn [index].
    rewrite minus_test, plus_test, Hminus, Hplus. cbn [orb].
    rewrite andb_false_r. cbn [index]. rewrite zero_test, Hz, andb_false_r.
    cbn [andb strconv.underscoreOK_scan]. rewrite decimal_scan_test, Hc. done.
  - cbn [strip_underscores]. rewrite Hu. unfold decimal_numeral.
    rewrite Hz. cbn [negb andb decimal_digits]. fold (is_decimal c).
    by rewrite Hc, Hdec.
  - unfold radix_of. by rewrite Hz.
  - unfold sign_of. by rewrite Hplus, Hminus.
Qed.

(** [ParseUint] reads a grouped numeral as the decimal numeral it is
    without its underscores. *)
Lemma grouped_ParseUint `{Platform} (s : string) (bits : Z) :
  bits = 32 \/ bits = 64 ->
  grouped_numeral s = true ->
  exists n,
    reading 10 (strip_underscores s) = Some n
    /\ 0 <= n
    /\ (if n <? 2 ^ bits then strconv.ParseUint s 0 bits = (n, nil)
        else strconv.ParseUint s 0 bits
             = (2 ^ bits - 1, Some (strconv.rangeError "ParseUint" s))).
Proof.
  intros Hbits Hg.
  destruct (grouped_numeral_facts s Hg) as (Hok & Hdec & Hradix & _).
  assert (Hs : s <> EmptyString) by (by destruct s).
  destruct (ParseUint_strip s bits Hbits Hs) as (base & ds & Hr & _ & ->).
  rewrite Hradix in Hr. injection Hr as <- <-.
  assert (Hdigits : decimal_digits (strip_underscores s) = true).
  { unfold decimal_numeral in Hdec. destruct (strip_underscores s); [done |].
    by apply andb_true_iff in Hdec as [_ ?]. }
  destruct (decimal_digits_reading _ Hdigits 0) as [n Hn]. exists n.
  split; [exact Hn |].
  assert (Hnn : 0 <= n).
  { apply (reading_from_ge 10 (strip_underscores s) ltac:(lia) 0 n); [lia | done]. }
  split; [done |].
  assert (Hpos : 0 <= 2 ^ bits - 1) by (destruct Hbits as [-> | ->]; done).
  pose proof (digits_loop_reading "ParseUint" s 10 bits true _ _ ltac:(lia)
                ltac:(lia) eq_refl eq_refl (strip_underscores s) false 0
                (strip_no_underscore s) ltac:(lia)) as Hloop.
  rewrite Hn in Hloop. rewrite Hok, andb_false_r.
  destruct (Z.leb_spec n (2 ^ bits - 1)), (Z.ltb_spec n (2 ^ bits)); try lia;
    by rewrite Hloop.
Qed.

(** [ParseInt] likewise. *)
Lemma grouped_ParseInt `{Platform} (s : string) (bits : Z) :
  bits = 32 \/ bits = 64 ->
  grouped_numeral s = true ->
  exists n,
    reading 10 (strip_underscores s) = Some n
    /\ match (if n <? 2 ^ (bits - 1) then Some n else None) with
       | Some v => strconv.ParseInt s 0 bits = (v, nil)
       | None => exists e, (strconv.ParseInt s 0 bits).2 = Some e
       end.
Proof.
  intros Hbits Hg.
  assert (Hp : 0 < 2 ^ (bits - 1) <= 2 ^ 63).
  { destruct Hbits as [-> | ->]; done. }
  destruct (grouped_numeral_facts s Hg) as (_ & _ & _ & Hsign).
  assert (Hs : s <> EmptyString) by (by destruct s).
  destruct (grouped_ParseUint s 64 ltac:(auto) Hg) as (n & Hn & Hnn & Hu).
  exists n. split; [exact Hn |].
  rewrite (ParseInt_sign s bits Hbits Hs), Hsign.
  destruct (Z.ltb_spec n (2 ^ 64)) as [Hfit | Hbig].
  - rewrite Hu. cbn [not_nil_and nil negb andb].
    destruct (Z.leb_spec (2 ^ (bits - 1)) n), (Z.ltb_spec n (2 ^ (bits - 1)));
      try lia; [cbn; eauto |].
    by rewrite int64_magnitude by lia.
  - rewrite Hu.
    cbn [not_nil_and Err strconv.rangeError is_ErrRange negb andb].
    destruct (Z.leb_spec (2 ^ (bits - 1)) (2 ^ 64 - 1)); [| lia].
    destruct (Z.ltb_spec n (2 ^ (bits - 1))); [lia |]. cbn. eauto.
Qed.

(** X7: a decimal numeral written with digit separators (it starts with a
    digit other than 0, and every underscore stands between two digits, as
    in 1_000_000) is read by every integer assigner as the base-10 value
    [n] of its digits without the underscores: [n] is written to the output
    cell when it fits the type, and a parse error is returned otherwise;
    the key is consumed in both cases. *)
Theorem digit_separators `{Platform} (key s : string) (w : world Z) :
  environ w !! key = Some s ->
  grouped_numeral s = true ->
  exists n,
    reading 10 (strip_underscores s) = Some n
    /\ reads (secureenv.Int64 addr key w)
         (if n <? 2 ^ 63 then Some n else None) key w
    /\ reads (secureenv.Int32 addr key w)
         (if n <? 2 ^ 31 then Some n else None) key w
    /\ reads (secureenv.Int addr key w)
         (if n <? 2 ^ (secureenv.intsize - 1) then Some n else None) key w
    /\ reads (secureenv.Uint64 addr key w)
         (if n <? 2 ^ 64 then Some n else None) key w
    /\ reads (secureenv.Uint32 addr key w)
         (if n <? 2 ^ 32 then Some n else None) key w
    /\ reads (secureenv.Uint addr key w)
         (if n <? 2 ^ secureenv.uintsize then Some n else None) key w.
Proof.
  intros Hs Hg. destruct intsize_cases as (_ & _ & Hi & Hu).
  destruct (grouped_ParseUint s 64 ltac:(auto) Hg) as (n & Hn & _ & _).
  exists n. split; [exact Hn |].
  assert (Hsigned : forall bits, bits = 32 \/ bits = 64 ->
    match (if n <? 2 ^ (bits - 1) then Some n else None) with
    | Some v => strconv.ParseInt s 0 bits = (v, nil)
    | None => exists e, (strconv.ParseInt s 0 bits).2 = Some e
    end).
  { intros bits Hbits.
    destruct (grouped_ParseInt s bits Hbits Hg) as (n' & Hn' & Hr).
    rewrite Hn in Hn'. by injection Hn' as <-. }
  assert (Hunsigned : forall bits, bits = 32 \/ bits = 64 ->
    match (if n <? 2 ^ bits then Some n else None) with
    | Some v => strconv.ParseUint s 0 bits = (v, nil)
    | None => exists e, (strconv.ParseUint s 0 bits).2 = Some e
    end).
  { intros bits Hbits.
    destruct (grouped_ParseUint s bits Hbits Hg) as (n' & Hn' & _ & Hr).
    rewrite Hn in Hn'. injection Hn' as <-.
    destruct (n <? 2 ^ bits); [done |]. rewrite Hr. cbn. eauto. }
  each_function; closed.
  - apply assign_result_reads with (s := s);
      [done | done | apply (Hsigned 64); auto].
  - apply assign_result_reads with (s := s);
      [done | apply (signed_conversion s 32); auto | apply (Hsigned 32); auto].
  - apply assign_result_reads with (s := s);
      [done | by apply signed_conversion | by apply Hsigned].
  - apply assign_result_reads with (s := s);
      [done | done | apply (Hunsigned 64); auto].
  - apply assign_result_reads with (s := s);
      [done | apply (unsigned_conversion s 32); auto | apply (Hunsigned 32); auto].
  - apply assign_result_reads with (s := s);
      [done | by apply unsigned_conversion | by apply Hunsigned].
Qed.

(** ** Underscores out of place *)

Lemma append_empty (t : string) : EmptyString ++ t = t.
Proof. reflexivity. Qed.

Lemma append_cons (c : ascii) (s t : string) :
  String c s ++ t = String c (s ++ t).
Proof. reflexivity. Qed.

Lemma scan_trailing_underscore (t : string) : forall hex saw,
  strconv.underscoreOK_scan hex saw (t ++ "_") = false.
Proof.
  induction t as [| c t IH]; intros hex saw.
  - rewrite append_empty. cbn [strconv.underscoreOK_scan].
    rewrite underscore_scan_test.
    replace (hex && (code "a" <=? strconv.lower (code "_"))
             && (strconv.lower (code "_") <=? code "f")) with false
      by (by destruct hex).
    cbn [orb]. rewrite Z.eqb_refl. by destruct (Ascii.eqb saw "0").
  - rewrite append_cons. cbn [strconv.underscoreOK_scan].
    repeat case_match; auto.
Qed.

Lemma no_underscore_trailing (t : string) : no_underscore (t ++ "_") = false.
Proof.
  induction t as [| c t IH]; [done |]. rewrite append_cons. cbn [no_underscore].
  by rewrite IH, andb_false_r.
Qed.

Lemma underscoreOK_trailing (s : string) : strconv.underscoreOK (s ++ "_") = false.
Proof.
  unfold strconv.underscoreOK.
  assert (Hsign : exists t,
    (if (1 <=? len (s ++ "_"))
        && ((index (s ++ "_") 0 =? code "-") || (index (s ++ "_") 0 =? code "+"))
     then slice_from (s ++ "_") 1 else s ++ "_") = t ++ "_").
  { destruct (_ && _) eqn:Hcond; [| eauto].
    destruct s as [| c s]; [| rewrite append_cons; cbn [slice_from]; eauto].
    apply andb_true_iff in Hcond as [_ Hcond]. done. }
  destruct Hsign as [t ->].
  destruct (_ && _ && _) eqn:Hprefix; [| apply scan_trailing_underscore].
  destruct t as [| a [| b t]].
  - apply andb_true_iff in Hprefix as [[Hlen _]%andb_true_iff _]. done.
  - apply andb_true_iff in Hprefix as [_ Hletter]. done.
  - rewrite !append_cons. cbn [slice_from]. apply scan_trailing_underscore.
Qed.

Lemma underscoreOK_leading (t : string) :
  strconv.underscoreOK (String "_" t) = false.
Proof.
  unfold strconv.underscoreOK. cbn [index].
  replace ((1 <=? len (String "_" t))
           && ((code "_" =? code "-") || (code "_" =? code "+"))) with false
    by (by rewrite andb_false_r).
  cbn [index].
  replace ((2 <=? len (String "_" t)) && (code "_" =? code "0")) with false
    by (by rewrite andb_false_r).
  done.
Qed.

(** A text with an underscore that [underscoreOK] does not allow is
    rejected by [ParseUint]. *)
Lemma ParseUint_bad_underscore `{Platform} (s : string) (bits : Z) :
  bits = 32 \/ bits = 64 ->
  no_underscore s = false ->
  strconv.underscoreOK s = false ->
  exists e, (strconv.ParseUint s 0 bits).2 = Some e.
Proof.
  intros Hbits Hnu Hok.
  assert (Hs : s <> EmptyString) by (by destruct s).
  destruct (ParseUint_strip s bits Hbits Hs) as (base & ds & _ & _ & ->).
  rewrite Hnu, Hok. cbn [negb andb].
  pose proof (digits_loop_early "ParseUint" s base true
                (maxUint64 / uint64 base + 1) (2 ^ bits - 1)
                (strip_underscores ds) false 0) as Hearly.
  destruct (strconv.digits_loop _ _ _ _ _ _ _ _ _) as [r | [n u]].
  - destruct (Hearly r eq_refl) as [-> | ->]; cbn; eauto.
  - cbn. eauto.
Qed.

(** When [ParseUint] rejects the magnitude, [ParseInt] rejects the text. *)
Lemma ParseInt_magnitude_error `{Platform} (s : string) (bits : Z) (e : NumError) :
  bits = 32 \/ bits = 64 ->
  s <> EmptyString ->
  (strconv.ParseUint (sign_of s).2 0 64).2 = Some e ->
  exists e', (strconv.ParseInt s 0 bits).2 = Some e'.
Proof.
  intros Hbits Hs He.
  assert (Hp : 0 < 2 ^ (bits - 1) <= 2 ^ 63).
  { destruct Hbits as [-> | ->]; done. }
  rewrite (ParseInt_sign s bits Hbits Hs).
  destruct (sign_of s) as [neg m]. cbn [snd] in He.
  destruct (ParseUint_result m 64 ltac:(auto)) as [_ Hu].
  destruct Hu as [Hu | Hu]; [unfold nil in Hu; congruence |].
  magnitude_error Hu neg bits.
Qed.

(** X8: a value that starts or ends with an underscore is a parse error
    for every integer assigner, whatever else it holds: the error is
    returned, the output cell is left as it was, and the key is consumed. *)
Theorem stray_underscore_rejected `{Platform} (key s t : string)
    (output : pointer) (w : world Z) :
  s = String "_" t \/ s = t ++ "_" ->
  environ w !! key = Some s ->
  forall set,
    In set [secureenv.Int64; secureenv.Int32; secureenv.Int;
            secureenv.Uint64; secureenv.Uint32; secureenv.Uint] ->
    exists e, set output key w = (Returned (Some e), consumed key w).
Proof.
  intros Hshape Hs set Hset. destruct intsize_cases as (_ & _ & Hi & Hu).
  assert (Hne : s <> EmptyString).
  { destruct Hshape as [-> | ->]; [done | by destruct t]. }
  assert (Hunsigned : forall bits, bits = 32 \/ bits = 64 ->
    exists e, (strconv.ParseUint s 0 bits).2 = Some e).
  { intros bits Hbits. apply ParseUint_bad_underscore; [done | |];
      destruct Hshape as [-> | ->];
      auto using no_underscore_trailing, underscoreOK_trailing, underscoreOK_leading. }
  assert (Hsigned : forall bits, bits = 32 \/ bits = 64 ->
    exists e, (strconv.ParseInt s 0 bits).2 = Some e).
  { intros bits Hbits.
    assert (Hm : no_underscore (sign_of s).2 = false
                 /\ strconv.underscoreOK (sign_of s).2 = false).
    { destruct Hshape as [-> | ->].
      - cbn. split; [done | apply underscoreOK_leading].
      - destruct t as [| c t].
        + cbn. split; [done | apply (underscoreOK_trailing EmptyString)].
        + rewrite append_cons. cbn [sign_of].
          destruct (Ascii.eqb c "+"); [| destruct (Ascii.eqb c "-")]; cbn [snd];
            first [ split; [apply no_underscore_trailing | apply underscoreOK_trailing]
                  | split; [apply (no_underscore_trailing (String c t))
                           | apply (underscoreOK_trailing (String c t))] ]. }
    destruct Hm as [Hm1 Hm2].
    destruct (ParseUint_bad_underscore (sign_of s).2 64 ltac:(auto) Hm1 Hm2)
      as [e He].
    by apply (ParseInt_magnitude_error s bits e). }
  assert (Hrun : forall (parse : string -> Z * error) (conv : Z -> Z),
    (exists e, (parse s).2 = Some e) ->
    exists e, assign_result parse conv output key w
              = (Returned (Some e), consumed key w)).
  { intros parse conv [e He]. exists e.
    destruct (parse s) as [v err] eqn:Hp. cbn [snd] in He. subst err.
    by apply assign_result_error with (s := s) (v := v). }
  cbn [In] in Hset.
  repeat (destruct Hset as [<- | Hset]; [closed; apply Hrun; auto |]).
  done.
Qed.

(** ** The further properties on concrete worlds *)


(** X3 on PORT=8080 with and without HOME=/root beside it. *)
Lemma other_entries_do_not_matter_witness :
  environ (world_of [("PORT", "8080"); ("HOME", "/root")] 0) !! "PORT"
  = environ (world_of [("PORT", "8080")] 0) !! "PORT"
  /\ (@secureenv.Int64 host64 addr "PORT"
        (world_of [("PORT", "8080"); ("HOME", "/root")] 0)).1
     = (@secureenv.Int64 host64 addr "PORT" (world_of [("PORT", "8080")] 0)).1
  /\ cell (@secureenv.Int64 host64 addr "PORT"
             (world_of [("PORT", "8080"); ("HOME", "/root")] 0)).2
     = cell (@secureenv.Int64 host64 addr "PORT" (world_of [("PORT", "8080")] 0)).2.
Proof.
  assert (Hagree :
    environ (world_of [("PORT", "8080"); ("HOME", "/root")] 0) !! "PORT"
    = environ (world_of [("PORT", "8080")] 0) !! "PORT")
    by (vm_compute; reflexivity).
  split; [exact Hagree |].
  destruct (@other_entries_do_not_matter host64 "PORT" addr) as (_ & _ & _ & Hfinal).
  destruct Hfinal as (_ & _ & _ & _ & HInt64 & _).
  exact (HInt64 _ _ Hagree eq_refl).
Defined.

(** X4 on N=-1. *)
Lemma unsigned_takes_no_sign_witness :
  environ (world_of [("N", "-1")] 7) !! "N" = Some "-1"
  /\ @secureenv.Uint64 host64 addr "N" (world_of [("N", "-1")] 7)
     = (Returned (Some (strconv.syntaxError "ParseUint" "-1")),
        consumed "N" (world_of [("N", "-1")] 7)).
Proof.
  assert (Hpresent : environ (world_of [("N", "-1")] 7) !! "N" = Some "-1")
    by (vm_compute; reflexivity).
  split; [exact Hpresent |].
  destruct (@unsigned_takes_no_sign host64 "N" "-" "1" addr (or_intror eq_refl))
    as (_ & Hset).
  exact (Hset _ Hpresent _ (or_introl eq_refl)).
Defined.

(** X5 on a variable DEBUG set to the empty string. *)
Lemma empty_value_is_present_witness :
  environ (world_of [("DEBUG", EmptyString)] true) !! "DEBUG" = Some EmptyString
  /\ secureenv.Bool addr "DEBUG" (world_of [("DEBUG", EmptyString)] true)
     = (Returned (Some (strconv.syntaxError "ParseBool" EmptyString)),
        consumed "DEBUG" (world_of [("DEBUG", EmptyString)] true)).
Proof.
  assert (Hpresent :
    environ (world_of [("DEBUG", EmptyString)] true) !! "DEBUG" = Some EmptyString)
    by (vm_compute; reflexivity).
  split; [exact Hpresent |].
  destruct (@empty_value_is_present host64 "DEBUG" addr) as (_ & _ & HBool & _).
  exact (HBool _ Hpresent).
Defined.

(** X7 on N=1_000_000. *)
Lemma digit_separators_witness :
  environ (world_of [("N", "1_000_000")] 0) !! "N" = Some "1_000_000"
  /\ grouped_numeral "1_000_000" = true
  /\ exists n,
      reading 10 (strip_underscores "1_000_000") = Some n
      /\ reads (@secureenv.Int64 host64 addr "N" (world_of [("N", "1_000_000")] 0))
           (if n <? 2 ^ 63 then Some n else None) "N"
           (world_of [("N", "1_000_000")] 0).
Proof.
  assert (Hpresent :
    environ (world_of [("N", "1_000_000")] 0) !! "N" = Some "1_000_000")
    by (vm_compute; reflexivity).
  split; [exact Hpresent |]. split; [reflexivity |].
  destruct (@digit_separators host64 "N" "1_000_000" _ Hpresent eq_refl)
    as (n & Hn & HInt64 & _).
  exists n. exact (conj Hn HInt64).
Defined.

(** X8 on N=1_. *)
Lemma stray_underscore_rejected_witness :
  environ (world_of [("N", "1_")] 0) !! "N" = Some "1_"
  /\ exists e,
      @secureenv.Int64 host64 addr "N" (world_of [("N", "1_")] 0)
      = (Returned (Some e), consumed "N" (world_of [("N", "1_")] 0)).
Proof.
  assert (Hpresent : environ (world_of [("N", "1_")] 0) !! "N" = Some "1_")
    by (vm_compute; reflexivity).
  split; [exact Hpresent |].
  exact (@stray_underscore_rejected host64 "N" "1_" "1" addr _
           (or_intror eq_refl) Hpresent _ (or_introl eq_refl)).
Defined.

(** X11 on a host with 8-byte [int]. *)
Lemma native_width_witness :
  @host host64 = Arch64
  /\ @secureenv.Int host64 addr "PORT" (world_of [("PORT", "8080")] 0)
     = @secureenv.Int64 host64 addr "PORT" (world_of [("PORT", "8080")] 0).
Proof.
  split; [reflexivity |].
  destruct (@native_width host64 addr "PORT" (world_of [("PORT", "8080")] 0))
    as (H64 & _).
  exact (proj1 (H64 eq_refl)).
Defined.

(** X12 on PORT=8080. *)
Lemma wider_type_accepts_witness :
  (@secureenv.Int32 host64 addr "PORT" (world_of [("PORT", "8080")] 0)).1
  = Returned nil
  /\ @secureenv.Int64 host64 addr "PORT" (world_of [("PORT", "8080")] 0)
     = @secureenv.Int32 host64 addr "PORT" (world_of [("PORT", "8080")] 0).
Proof.
  assert (Hok :
    (@secureenv.Int32 host64 addr "PORT" (world_of [("PORT", "8080")] 0)).1
    = Returned nil) by (vm_compute; reflexivity).
  split; [exact Hok |].
  destruct (@wider_type_accepts host64 addr "PORT" (world_of [("PORT", "8080")] 0))
    as (H32 & _).
  exact (proj1 (H32 Hok)).
Defined.
